(** * Invoice lifecycle of the Discord / LNbits role bot

    A shallow embedding of [backend/database.py], [backend/bot.py] and the
    configuration-read endpoint of [backend/server.py], together with the
    properties of the invoice lifecycle that were checked against it.

    Conventions.
    - A SQLite table with a TEXT primary key is a finite map from the key
      to the remaining columns ([gmap string invoice]).
    - Values decoded by [json.loads] are terms of [json]; Python's
      truthiness, [or], [is] and [>] are written out on that type.
    - Time is counted in microseconds since the epoch.  SQLite's
      [CURRENT_TIMESTAMP] is UTC with a resolution of one second, Python's
      [datetime.now()] is the naive local wall clock; both are read from
      one [clock] value so that their relation stays visible.
    - Calls to Discord and to LNbits are answered by an explicit
      environment value; what the code sends out is collected as a list of
      [action]s. *)

From Stdlib Require Import ZArith String Ascii Bool List Lia.
From Stdlib Require Import Floats.SpecFloat.
From stdpp Require Import gmap strings list fin_maps pretty.

#[local] Open Scope Z_scope.
#[local] Set Warnings "-register-all,-clear-no-such-hyp".

(* ===================================================================== *)
(** ** Python values as produced by [json.loads] *)
(* ===================================================================== *)

Inductive json : Type :=
| JNull
| JBool (b : bool)
| JInt (z : Z)
| JFloat (f : spec_float)
| JStr (s : string)
| JArr (l : list json)
| JObj (o : gmap string json).

Module Py.

(** [bool(v)]. *)
Definition truthy (v : json) : bool :=
  match v with
  | JNull => false
  | JBool b => b
  | JInt z => negb (z =? 0)
  | JFloat (S754_zero _) => false
  | JFloat _ => true
  | JStr s => negb (String.eqb s "")
  | JArr [] => false
  | JArr _ => true
  | JObj o => negb (Nat.eqb (size o) 0)
  end.

(** [d.get(k)]: a missing key reads as [None]. *)
Definition get (d : gmap string json) (k : string) : json :=
  default JNull (d !! k).

(** [d.get(k, dflt)]. *)
Definition get_default (d : gmap string json) (k : string) (dflt : json) : json :=
  default dflt (d !! k).

(** [a or b]: the first operand when it is truthy, else the second. *)
Definition or_ (a b : json) : json := if truthy a then a else b.

(** [v is True] and [v is False]: identity with the two bool singletons. *)
Definition is_True (v : json) : bool :=
  match v with JBool true => true | _ => false end.

Definition is_False (v : json) : bool :=
  match v with JBool false => true | _ => false end.

(** [v == s] for a string literal [s]. *)
Definition eq_str (v : json) (s : string) : bool :=
  match v with JStr t => String.eqb t s | _ => false end.

(** [v > 0].  [bool] is a subclass of [int]; for every other type the
    comparison with an [int] raises [TypeError], rendered as [None]. *)
Definition gt_zero (v : json) : option bool :=
  match v with
  | JInt z => Some (0 <? z)
  | JBool b => Some b
  | JFloat f => Some (SFltb (S754_zero false) f)
  | JNull | JStr _ | JArr _ | JObj _ => None
  end.

End Py.

(* ===================================================================== *)
(** ** Clocks *)
(* ===================================================================== *)

(** One instant, as the two clocks of the program see it. *)
Record clock : Type := Clock {
  utc_micros : Z;      (* microseconds since the epoch, UTC *)
  utc_offset : Z       (* seconds the local zone is ahead of UTC *)
}.

Definition MICROS : Z := 1000000.

(** SQLite's [CURRENT_TIMESTAMP]: UTC, whole seconds. *)
Definition CURRENT_TIMESTAMP (c : clock) : Z := utc_micros c / MICROS.

(** [datetime.now()]: naive local time, microsecond resolution. *)
Definition datetime_now (c : clock) : Z := utc_micros c + utc_offset c * MICROS.

(** [timedelta(hours=h)]. *)
Definition timedelta_hours (h : Z) : Z := h * 3600 * MICROS.

(** The same instant [d] microseconds later. *)
Definition later (c : clock) (d : Z) : clock :=
  Clock (utc_micros c + d) (utc_offset c).

(* ===================================================================== *)
(** ** database.py *)
(* ===================================================================== *)

(** Invoice expiry time (1 hour). *)
Definition INVOICE_EXPIRY_HOURS : Z := 1.

(** A row of [pending_invoices] without its key [payment_hash];
    [created_at] is the stored [CURRENT_TIMESTAMP], in seconds. *)
Record invoice : Type := Invoice {
  user_id : Z;
  channel_id : Z;
  created_at : Z
}.

#[global] Instance invoice_eq_dec : EqDecision invoice.
Proof. solve_decision. Defined.

Abbreviation table := (gmap string invoice).

(** [add_pending_invoice]: the INSERT violates the primary key when the
    hash is present ([sqlite3.IntegrityError], answered by [False]);
    otherwise the row is stored with the default [created_at]. *)
Definition add_pending_invoice (c : clock) (payment_hash : string)
    (uid cid : Z) (rows : table) : bool * table :=
  match rows !! payment_hash with
  | Some _ => (false, rows)
  | None => (true, <[payment_hash := Invoice uid cid (CURRENT_TIMESTAMP c)]> rows)
  end.

(** [get_pending_invoice]: a SELECT by key, on a connection of its own. *)
Definition get_pending_invoice (payment_hash : string) (rows : table)
    : option invoice :=
  rows !! payment_hash.

(** [remove_pending_invoice]: a DELETE by key, on a connection of its
    own; answers whether a row was removed. *)
Definition remove_pending_invoice (payment_hash : string) (rows : table)
    : bool * table :=
  (bool_decide (is_Some (rows !! payment_hash)), delete payment_hash rows).

(** [get_all_pending_invoices]. *)
Definition get_all_pending_invoices (rows : table) : list (string * invoice) :=
  map_to_list rows.

(** [get_pending_invoice_count]. *)
Definition get_pending_invoice_count (rows : table) : nat := size rows.

(** The WHERE clause [created_at < ?] of the cleanup.  Both sides are
    text of the shape [YYYY-MM-DD HH:MM:SS], the parameter with an
    optional [.ffffff] suffix; compared bytewise they order as the instants
    they denote, a stored second being smaller than the same second with a
    fraction. *)
Definition older_than (expiry_time : Z) (r : invoice) : Prop :=
  created_at r * MICROS < expiry_time.

#[global] Instance older_than_dec e r : Decision (older_than e r).
Proof. unfold older_than. apply _. Defined.

(** [cleanup_expired_invoices]: deletes the rows created before
    [datetime.now() - timedelta(hours=INVOICE_EXPIRY_HOURS)] and returns
    the cursor's [rowcount]. *)
Definition cleanup_expired_invoices (c : clock) (rows : table) : Z * table :=
  let expiry_time := datetime_now c - timedelta_hours INVOICE_EXPIRY_HOURS in
  let removed := filter (fun kv => older_than expiry_time kv.2) rows in
  (Z.of_nat (size removed),
   filter (fun kv => ~ older_than expiry_time kv.2) rows).

(* ===================================================================== *)
(** ** bot.py: effects *)
(* ===================================================================== *)

(** How a call that may raise comes back. *)
Inductive outcome : Type := Returns | Raises.

Inductive level : Type := DEBUG | INFO | WARNING | ERROR.

(** What the bot does to the outside world, in program order.  Log
    records keep the constant part of the source's message. *)
Inductive action : Type :=
| Log (lvl : level) (text : string)
| FetchMember (uid : Z)          (* guild.fetch_member(user_id) *)
| AddRoles (uid : Z)             (* member.add_roles(role, reason=...) *)
| SendGranted (uid : Z)          (* invoice_channel.send("... has paid ... and been granted ...") *)
| SendAlready (uid : Z)          (* invoice_channel.send("... payment confirmed! You already have ...") *)
| Reply (text : string)          (* interaction.response.send_message(text, ephemeral=True) *)
| PostInvoice (pr h : json) (qr : bool).  (* invoice_channel.send(content=mention, embed=..., file=...) *)

#[global] Instance outcome_eq_dec : EqDecision outcome.
Proof. solve_decision. Defined.

(* ===================================================================== *)
(** ** bot.py: assign_role_after_payment *)
(* ===================================================================== *)

(** What Discord answers during one run of the handler. *)
Record discord : Type := Discord {
  guild_found : bool;        (* bot.get_guild(GUILD_ID) *)
  member_cached : bool;      (* guild.get_member(user_id) *)
  fetch_member : outcome;    (* await wait_for(guild.fetch_member(user_id), timeout=10) *)
  role_found : bool;         (* guild.get_role(ROLE_ID) *)
  channel_found : bool;      (* bot.get_channel(CHANNEL_ID) *)
  holds_role : bool;         (* role in member.roles *)
  add_roles : outcome;       (* await wait_for(member.add_roles(...), timeout=10) *)
  channel_send : outcome     (* await invoice_channel.send(...) *)
}.

Definition log_processing : action := Log INFO "Processing payment for hash".
Definition log_not_found : action := Log INFO "Hash not found in pending invoices.".
Definition log_found : action := Log INFO "Found pending invoice for user_id".
Definition log_no_guild : action := Log ERROR "Guild not found.".
Definition log_fetch_error : action := Log ERROR "Error fetching member".
Definition log_no_role : action := Log ERROR "Role ID not found in guild.".
Definition log_no_channel : action := Log ERROR "Invoice channel ID not found.".
Definition log_assigned : action := Log INFO "Role assigned".
Definition log_assign_error : action := Log ERROR "Error assigning role".

(** The part of the handler from the role test on: [member] and [role]
    are resolved, [ch] tells whether the invoice channel is. *)
Definition grant (e : discord) (uid : Z) : list action * outcome :=
  let ch := channel_found e in
  let a := if ch then [] else [log_no_channel] in
  if negb (holds_role e) then
    match add_roles e with
    | Raises => (a ++ [AddRoles uid; log_assign_error], Returns)
    | Returns =>
        if ch then
          match channel_send e with
          | Returns => (a ++ [AddRoles uid; log_assigned; SendGranted uid], Returns)
          | Raises =>
              (a ++ [AddRoles uid; log_assigned; SendGranted uid; log_assign_error],
               Returns)
          end
        else (a ++ [AddRoles uid; log_assigned], Returns)
    end
  else
    if ch then (a ++ [SendAlready uid], channel_send e) else (a, Returns).

(** [assign_role_after_payment(payment_hash_received, _)], as one
    function: the table after the run, what was done, and whether the
    coroutine returned or raised. *)
Definition assign_role_after_payment (e : discord) (payment_hash_received : string)
    (rows : table) : table * list action * outcome :=
  match get_pending_invoice payment_hash_received rows with
  | None => (rows, [log_processing; log_not_found], Returns)
  | Some invoice_data =>
      let rows := (remove_pending_invoice payment_hash_received rows).2 in
      let uid := user_id invoice_data in
      let a := [log_processing; log_found] in
      if negb (guild_found e) then (rows, a ++ [log_no_guild], Returns) else
      let member :=
        if member_cached e then Some []
        else match fetch_member e with
             | Returns => Some [FetchMember uid]
             | Raises => None
             end in
      match member with
      | None => (rows, a ++ [FetchMember uid; log_fetch_error], Returns)
      | Some fetched =>
          if negb (role_found e) then (rows, a ++ fetched ++ [log_no_role], Returns)
          else let '(g, o) := grant e uid in (rows, a ++ fetched ++ g, o)
      end
  end.

(* ===================================================================== *)
(** ** bot.py: the handler as a task of the event loop *)
(* ===================================================================== *)

(** Where a handler task stands.  The [PAwait...] points are its [await]
    expressions, where the event loop may run another task; between two of
    them the statements are cut one database call at a time. *)
Inductive pc : Type :=
| PStart                              (* not run yet *)
| PFound (r : invoice)                (* get_pending_invoice answered a row *)
| PRemoved (r : invoice)              (* remove_pending_invoice done *)
| PAwaitFetch (r : invoice)           (* in await fetch_member *)
| PMember (r : invoice)               (* member resolved *)
| PAwaitAdd (r : invoice)             (* in await add_roles *)
| PAwaitSendGranted (r : invoice)     (* in await send, after the grant *)
| PAwaitSendAlready (r : invoice)     (* in await send, role already held *)
| PDone (got : option invoice) (o : outcome).

#[global] Instance pc_eq_dec : EqDecision pc.
Proof. solve_decision. Defined.

Definition is_await (p : pc) : bool :=
  match p with
  | PAwaitFetch _ | PAwaitAdd _ | PAwaitSendGranted _ | PAwaitSendAlready _ => true
  | _ => false
  end.

Definition is_done (p : pc) : bool :=
  match p with PDone _ _ => true | _ => false end.

(** The row the task holds, once its lookup has answered one. *)
Definition obtained (p : pc) : option invoice :=
  match p with
  | PStart => None
  | PFound r | PRemoved r | PAwaitFetch r | PMember r | PAwaitAdd r
  | PAwaitSendGranted r | PAwaitSendAlready r => Some r
  | PDone got _ => got
  end.

(** One statement group of the handler. *)
Definition step (e : discord) (h : string) (p : pc) (rows : table)
    : pc * table * list action :=
  match p with
  | PStart =>
      match get_pending_invoice h rows with
      | None => (PDone None Returns, rows, [log_processing; log_not_found])
      | Some invoice_data => (PFound invoice_data, rows, [log_processing])
      end
  | PFound r => (PRemoved r, (remove_pending_invoice h rows).2, [])
  | PRemoved r =>
      if negb (guild_found e) then (PDone (Some r) Returns, rows, [log_found; log_no_guild])
      else if member_cached e then (PMember r, rows, [log_found])
      else (PAwaitFetch r, rows, [log_found; FetchMember (user_id r)])
  | PAwaitFetch r =>
      match fetch_member e with
      | Returns => (PMember r, rows, [])
      | Raises => (PDone (Some r) Returns, rows, [log_fetch_error])
      end
  | PMember r =>
      if negb (role_found e) then (PDone (Some r) Returns, rows, [log_no_role])
      else
        let a := if channel_found e then [] else [log_no_channel] in
        if negb (holds_role e) then (PAwaitAdd r, rows, a ++ [AddRoles (user_id r)])
        else if channel_found e then
          (PAwaitSendAlready r, rows, a ++ [SendAlready (user_id r)])
        else (PDone (Some r) Returns, rows, a)
  | PAwaitAdd r =>
      match add_roles e with
      | Raises => (PDone (Some r) Returns, rows, [log_assign_error])
      | Returns =>
          if channel_found e then
            (PAwaitSendGranted r, rows, [log_assigned; SendGranted (user_id r)])
          else (PDone (Some r) Returns, rows, [log_assigned])
      end
  | PAwaitSendGranted r =>
      match channel_send e with
      | Returns => (PDone (Some r) Returns, rows, [])
      | Raises => (PDone (Some r) Returns, rows, [log_assign_error])
      end
  | PAwaitSendAlready r => (PDone (Some r) (channel_send e), rows, [])
  | PDone got o => (PDone got o, rows, [])
  end.

(** The task runs on until it reaches an [await] or ends. *)
Fixpoint run_to_await (fuel : nat) (e : discord) (h : string) (p : pc)
    (rows : table) : pc * table * list action :=
  match fuel with
  | O => (p, rows, [])
  | S fuel =>
      let '(p1, rows1, a1) := step e h p rows in
      if is_await p1 || is_done p1 then (p1, rows1, a1)
      else
        let '(p2, rows2, a2) := run_to_await fuel e h p1 rows1 in
        (p2, rows2, a1 ++ a2)
  end.

(** No chain of statement groups between two suspension points is longer. *)
Definition SEGMENT : nat := 4.

(** The task run alone from [p] until it ends: at most three awaits. *)
Fixpoint run_alone (awaits : nat) (e : discord) (h : string) (p : pc)
    (rows : table) : pc * table * list action :=
  let '(p1, rows1, a1) := run_to_await SEGMENT e h p rows in
  match awaits with
  | O => (p1, rows1, a1)
  | S awaits =>
      if is_done p1 then (p1, rows1, a1)
      else
        let '(p2, rows2, a2) := run_alone awaits e h p1 rows1 in
        (p2, rows2, a1 ++ a2)
  end.

Record task : Type := Task {
  t_env : discord;
  t_hash : string;
  t_pc : pc;
  t_done : list action
}.

(** The event loop: the shared table and the tasks created by
    [bot.loop.create_task(assign_role_after_payment(h, p))]. *)
Record loop : Type := Loop {
  db : table;
  tasks : list task
}.

(** The loop of asyncio gives the thread to task [i], which keeps it up to
    its next [await]. *)
Definition resume (st : loop) (i : nat) : loop :=
  match tasks st !! i with
  | None => st
  | Some t =>
      let '(p, rows, a) := run_to_await SEGMENT (t_env t) (t_hash t) (t_pc t) (db st) in
      Loop rows (<[i := Task (t_env t) (t_hash t) p (t_done t ++ a)]> (tasks st))
  end.

Definition run_loop (st : loop) (sched : list nat) : loop :=
  foldl resume st sched.

(** A scheduler that may switch tasks between any two database calls, as
    threads or several processes on one database file would. *)
Definition preempt (st : loop) (i : nat) : loop :=
  match tasks st !! i with
  | None => st
  | Some t =>
      let '(p, rows, a) := step (t_env t) (t_hash t) (t_pc t) (db st) in
      Loop rows (<[i := Task (t_env t) (t_hash t) p (t_done t ++ a)]> (tasks st))
  end.

Definition run_preemptive (st : loop) (sched : list nat) : loop :=
  foldl preempt st sched.

(** [n] confirmations for the same hash, just created. *)
Definition spawn (envs : list discord) (h : string) : list task :=
  map (fun e => Task e h PStart []) envs.

(** How many tasks hold a row. *)
Definition holders (ts : list task) : nat :=
  length (filter (fun t => is_Some (obtained (t_pc t))) ts).

(** How many tasks ended on the not-found branch. *)
Definition turned_away (ts : list task) : nat :=
  length (filter (fun t => t_pc t = PDone None Returns) ts).

(** How many tasks have not run yet. *)
Definition fresh (ts : list task) : nat :=
  length (filter (fun t => t_pc t = PStart) ts).

(** The points at which the event loop finds a task that has run: in an
    [await], or over. *)
Definition settled (p : pc) : bool := is_await p || is_done p.

(** Task [i] exists and has run. *)
Definition started (st : loop) (i : nat) : Prop :=
  exists t, tasks st !! i = Some t /\ t_pc t <> PStart.

(** The three kinds of task the event loop of asyncio can hold: not run
    yet, holding a row at an [await] or at its end, or turned away. *)
Definition classified (t : task) : Prop :=
  t_pc t = PStart
  \/ (settled (t_pc t) = true /\ is_Some (obtained (t_pc t)))
  \/ t_pc t = PDone None Returns.

(** What holds of the event loop while it processes confirmations for the
    hash [h] stored in [rows0]: until one task has run the table is
    [rows0] and all tasks are fresh; from then on the row of [h] is gone
    and one task holds it. *)
Record loop_inv (rows0 : table) (h : string) (st : loop) : Prop := LoopInv {
  inv_hash : Forall (fun t => t_hash t = h) (tasks st);
  inv_classes : Forall classified (tasks st);
  inv_db :
    (db st = rows0 /\ fresh (tasks st) = length (tasks st))
    \/ (db st = delete h rows0 /\ holders (tasks st) = 1%nat)
}.

(* ===================================================================== *)
(** ** bot.py: lnbits_websocket_listener *)
(* ===================================================================== *)

(** What one pass of the read loop does with the text it received. *)
Inductive handled : Type :=
| Dispatched (h : json) (p : gmap string json)
    (* bot.loop.create_task(assign_role_after_payment(h, p)) *)
| Ignored          (* debug: "Payment update ignored" *)
| Unexpected       (* warning: "Unexpected WebSocket format" *)
| HandlerError.    (* except Exception: "Error handling WebSocket message" *)

(** [is_paid] of the read loop. *)
Definition is_paid (p : gmap string json) : bool :=
  Py.eq_str (Py.get p "status") "success"
  || Py.is_True (Py.get p "paid")
  || Py.is_False (Py.get p "pending").

(** [h] of the read loop. *)
Definition matching_id (p : gmap string json) : json :=
  Py.or_ (Py.get p "checking_id") (Py.get p "payment_hash").

(** The body of the inner [try], on the text [msg]; [None] is a text
    that [json.loads] rejects.  [h and is_paid and amt > 0] compares the
    amount only when the first two operands are truthy. *)
Definition handle_message (msg : option json) : handled :=
  match msg with
  | None => HandlerError
  | Some (JObj data) =>
      match Py.get data "payment" with
      | JObj p =>
          let h := matching_id p in
          let amt := Py.get_default p "amount" (JInt 0) in
          if Py.truthy h && is_paid p then
            match Py.gt_zero amt with
            | Some true => Dispatched h p
            | Some false => Ignored
            | None => HandlerError
            end
          else Ignored
      | _ => Unexpected
      end
  | Some _ => HandlerError      (* data.get: not a dict *)
  end.

(** Where the listener coroutine stands. *)
Inductive lstate : Type :=
| WaitReady       (* await bot.wait_until_ready() *)
| Connecting      (* entering websockets.connect(LNBITS_WEBSOCKET_URL) *)
| Receiving       (* await ws.recv() *)
| Leaving         (* after break: leaving the async with block *)
| Sleeping        (* await asyncio.sleep(15) *)
| Ended.          (* the coroutine is over *)

(** What comes back at the point where the listener waits. *)
Inductive lin : Type :=
| Ready                        (* the bot is ready *)
| Established                  (* the connection is open *)
| ConnectFailed                (* connect raised an Exception *)
| Text (msg : option json)     (* recv returned a text *)
| Closed                       (* recv raised ConnectionClosed *)
| RecvFailed                   (* recv raised another Exception *)
| Left                         (* the async with block was left *)
| LeaveFailed                  (* leaving it raised an Exception *)
| Woke                         (* sleep returned *)
| Cancelled.                   (* a BaseException that is no Exception, as
                                  CancelledError at shutdown *)

Inductive lout : Type :=
| LLog (lvl : level) (text : string)
| LConnect
| LSleep (seconds : Z)
| LSpawn (h : json) (p : gmap string json).

Definition on_message (msg : option json) : list lout :=
  match handle_message msg with
  | Dispatched h p => [LLog INFO "Payment confirmed"; LSpawn h p]
  | Ignored => [LLog DEBUG "Payment update ignored"]
  | Unexpected => [LLog WARNING "Unexpected WebSocket format"]
  | HandlerError => [LLog ERROR "Error handling WebSocket message"]
  end.

Definition retry : lstate * list lout :=
  (Sleeping, [LLog ERROR "WebSocket connection error. Retrying in 15s..."; LSleep 15]).

(** One turn of the coroutine: from the point where it waits, on what
    comes back, to the next point where it waits.  [None]: that answer
    cannot come back at that point. *)
Definition listener_step (s : lstate) (i : lin) : option (lstate * list lout) :=
  match s, i with
  | Ended, _ => None
  | _, Cancelled => Some (Ended, [])
  | WaitReady, Ready => Some (Connecting, [LLog INFO "Connecting to LNBits WebSocket..."; LConnect])
  | Connecting, Established => Some (Receiving, [LLog INFO "WebSocket connected."])
  | Connecting, ConnectFailed => Some retry
  | Receiving, Text msg => Some (Receiving, LLog DEBUG "WebSocket message" :: on_message msg)
  | Receiving, Closed => Some (Leaving, [LLog WARNING "WebSocket closed, reconnecting..."])
  | Receiving, RecvFailed => Some (Receiving, [LLog ERROR "Error handling WebSocket message"])
  | Leaving, Left => Some (Connecting, [LConnect])
  | Leaving, LeaveFailed => Some retry
  | Sleeping, Woke => Some (Connecting, [LConnect])
  | _, _ => None
  end.

(** The listener fed a sequence of answers. *)
Fixpoint listener_run (s : lstate) (ins : list lin) : option (lstate * list lout) :=
  match ins with
  | [] => Some (s, [])
  | i :: ins =>
      match listener_step s i with
      | None => None
      | Some (s1, o1) =>
          match listener_run s1 ins with
          | None => None
          | Some (s2, o2) => Some (s2, o1 ++ o2)
          end
      end
  end.

Definition is_sleep (o : lout) : bool :=
  match o with LSleep _ => true | _ => false end.

(* ===================================================================== *)
(** ** bot.py: the slash command *)
(* ===================================================================== *)

(** Return user-friendly error message based on LNBits response. *)
Definition get_lnbits_error_message (status_code : Z) (response_text : string)
    : string :=
  if 500 <=? status_code then
    "❌ LNBits server error (" +:+ pretty status_code
      +:+ ") - Lightning node may be disconnected. Please contact admin."
  else if status_code =? 401 then
    "❌ LNBits authentication failed - invalid API key."
  else if status_code =? 403 then
    "❌ LNBits permission denied - API key may not have invoice permission."
  else if status_code =? 404 then
    "❌ LNBits endpoint not found - check server configuration."
  else
    "❌ LNBits error (" +:+ pretty status_code +:+ "). Please try again later.".

(** How [requests.post] comes back; [body] is [resp.json()], [None] when
    that raises. *)
Inductive http_result : Type :=
| ConnectionError
| Timeout
| OtherError
| Response (status_code : Z) (text : string) (body : option json).

(** What one invocation of the command meets. *)
Record interaction : Type := Interaction {
  i_user : Z;                 (* interaction.user.id *)
  i_channel_found : bool;     (* bot.get_channel(CHANNEL_ID) *)
  i_post : http_result;       (* requests.post(.../api/v1/payments, ...) *)
  i_qr : outcome;             (* qrcode.make(pr.upper()).save(...) *)
  i_send : outcome            (* invoice_channel.send(content=..., embed=..., file=...) *)
}.

Section Command.

Variable CHANNEL_ID : Z.

(** The tail of the command once the invoice is stored. *)
Definition present (i : interaction) (pr h : json) : list action :=
  let qr := match i_qr i with Returns => true | Raises => false end in
  (if qr then [] else [Log WARNING "QR generation failed"])
  ++ PostInvoice pr h qr
  :: match i_send i with
     | Returns => [Reply "✅ Invoice posted!"]
     | Raises => [Log ERROR "Error sending invoice message";
                  Reply "❌ Failed to post invoice."]
     end.

(** [dynamic_command(interaction)].  The database functions take the hash
    as [str]; a reply whose [payment_hash] is truthy without being a
    string is left outside the embedding ([None]). *)
Definition dynamic_command (c : clock) (i : interaction) (rows : table)
    : option (table * list action * outcome) :=
  if negb (i_channel_found i) then
    Some (rows, [Reply "❌ Invoice channel misconfigured."], Returns)
  else
    match i_post i with
    | ConnectionError =>
        Some (rows, [Reply "❌ Cannot connect to LNBits - check network configuration.";
                     Log ERROR "Invoice creation failed: Connection error to LNBits"],
              Returns)
    | Timeout =>
        Some (rows, [Reply "❌ LNBits connection timed out - Lightning node may be slow.";
                     Log ERROR "Invoice creation failed: Timeout connecting to LNBits"],
              Returns)
    | OtherError =>
        Some (rows, [Reply "❌ Could not create invoice. Please try again later.";
                     Log ERROR "Invoice creation error"],
              Returns)
    | Response status_code text body =>
        if negb (status_code =? 201) then
          Some (rows, [Reply (get_lnbits_error_message status_code text);
                       Log ERROR "LNBits error response"],
                Returns)
        else
          match body with
          | Some (JObj inv) =>
              let pr := Py.get inv "bolt11" in
              let h := Py.get inv "payment_hash" in
              if negb (Py.truthy pr) || negb (Py.truthy h) then
                Some (rows, [Reply "❌ Invalid invoice data from LNBits."], Returns)
              else
                match h with
                | JStr k =>
                    let rows := (add_pending_invoice c k (i_user i) CHANNEL_ID rows).2 in
                    Some (rows, Log INFO "Created invoice" :: present i pr h, Returns)
                | _ => None
                end
          | _ => Some (rows, [], Raises)     (* resp.json() or inv.get raises *)
          end
    end.

End Command.


Definition is_post (a : action) : bool :=
  match a with PostInvoice _ _ _ => true | _ => false end.

Definition is_add_roles (a : action) : bool :=
  match a with AddRoles _ => true | _ => false end.

(* ===================================================================== *)
(** ** server.py: GET /api/config *)
(* ===================================================================== *)

Definition SECRETS : list string := ["discord_token"; "lnbits_api_key"].

(** [get_config()].  [file] is [None] when [CONFIG_FILE] does not exist,
    else what [json.load] makes of it ([None] when it raises).  The result
    is the object handed to [jsonify]; [None] is an exception, which Flask
    turns into a 500 answer. *)
Definition get_config (file : option (option json))
    : option (gmap string json) :=
  match file with
  | None => Some {[ "configured" := JBool false ]}
  | Some (Some (JObj config)) =>
      let safe_config : gmap string json :=
        filter (fun kv => kv.1 ∉ SECRETS) config in
      Some (<[ "configured" :=
                 JBool (Py.truthy (Py.get config "discord_token")
                        && Py.truthy (Py.get config "lnbits_api_key")) ]>
              safe_config)
  | Some _ => None
  end.

(* ===================================================================== *)
(** ** Python's string methods *)
(* ===================================================================== *)

(** A Python [str] is kept as its UTF-8 bytes.  The patterns below are
    ASCII, so that testing and cutting bytes is testing and cutting
    characters. *)
Module Str.

(** [s.startswith(p)]. *)
Definition startswith (p s : string) : bool := String.prefix p s.

(** [s.rstrip(ch)] for a one-character [ch]: all trailing [ch] go. *)
Fixpoint rstrip (ch : ascii) (s : string) : string :=
  match s with
  | EmptyString => EmptyString
  | String a s' =>
      let t := rstrip ch s' in
      if String.eqb t "" && Ascii.eqb a ch then EmptyString else String a t
  end.

(** [s[n:]]. *)
Fixpoint drop (n : nat) (s : string) : string :=
  match n, s with
  | O, _ => s
  | S n, String _ s' => drop n s'
  | S _, EmptyString => EmptyString
  end.

(** [s.replace(old, new, 1)]: the first occurrence of [old], from the
    left, is replaced. *)
Fixpoint replace_first (old new s : string) : string :=
  match s with
  | EmptyString => if String.prefix old s then new else EmptyString
  | String a s' =>
      if String.prefix old s then new +:+ drop (String.length old) s
      else String a (replace_first old new s')
  end.

(** [len(s)]: the number of characters, which are the bytes that do not
    continue a UTF-8 sequence. *)
Fixpoint len (s : string) : nat :=
  match s with
  | EmptyString => O
  | String a s' =>
      let n := nat_of_ascii a in
      if (128 <=? n)%nat && (n <? 192)%nat then len s' else S (len s')
  end.

End Str.

(* ===================================================================== *)
(** ** bot.py: the address of the event feed *)
(* ===================================================================== *)

(** Lines 61 to 74 of bot.py, for an LNbits address and an API key that
    are strings: [None] is [exit(1)], otherwise the result is
    [LNBITS_WEBSOCKET_URL]. *)
Definition websocket_url (LNBITS_URL LNBITS_API_KEY : string) : option string :=
  if String.eqb LNBITS_URL "" || String.eqb LNBITS_API_KEY "" then None
  else
    let clean_lnbits_http_url := Str.rstrip "/"%char LNBITS_URL in
    let base_ws_url :=
      if Str.startswith "https://" clean_lnbits_http_url then
        Some (Str.replace_first "https://" "wss://" clean_lnbits_http_url)
      else if Str.startswith "http://" clean_lnbits_http_url then
        Some (Str.replace_first "http://" "ws://" clean_lnbits_http_url)
      else None in
    match base_ws_url with
    | Some base => Some (base +:+ "/api/v1/ws/" +:+ LNBITS_API_KEY)
    | None => None
    end.

(* ===================================================================== *)
(** ** server.py: GET /api/logs *)
(* ===================================================================== *)

(** [get_logs()].  [file] is [None] when [LOG_FILE] does not exist, else
    what [readlines] gives ([None] when reading raises).  The result is
    the list under [logs]; [None] is the 500 answer. *)
Definition get_logs (file : option (option (list string))) : option (list string) :=
  match file with
  | None => Some []
  | Some None => None
  | Some (Some lines) => Some (List.skipn (length lines - 100) lines)
  end.

(* ===================================================================== *)
(** ** server.py: POST /api/test-connection *)
(* ===================================================================== *)







(* ===================================================================== *)
(** ** server.py: validate_config and POST /api/config *)
(* ===================================================================== *)

(** How [int(v)] comes back. *)
Inductive converted : Type :=
| IntOk (z : Z)
| IntInvalid       (* ValueError or TypeError *)
| IntOverflow.     (* OverflowError, which validate_config does not catch *)

(** How [validate_config] comes back: its pair [(True, '')] or
    [(False, error_message)], or an exception it does not catch. *)
Inductive verdict : Type :=
| Valid
| Invalid (error_message : string)
| Raised.

(** The answers of POST /api/config: 200, 400 with the error, 500. *)
Inductive response : Type :=
| Saved
| BadRequest (error : string)
| ServerError.

(** What became of writing [CONFIG_FILE]: written, or an exception that
    leaves the file in the state [remains]. *)
Inductive written : Type :=
| Written
| WriteFailed (remains : option (option json)).

Definition REQUIRED_FIELDS : list string :=
  ["discord_token"; "guild_id"; "role_id"; "lnbits_url";
   "lnbits_api_key"; "price"; "channelid"; "command_name"].

Definition ID_FIELDS : list string := ["guild_id"; "role_id"; "channelid"].

Definition NUMERIC_FIELDS : list string := ["guild_id"; "role_id"; "channelid"; "price"].

Definition DEFAULT_INVOICE_MESSAGE : string :=
  "Please pay this Lightning invoice to receive your role!".

(** Max possible sats. *)
Definition MAX_PRICE : Z := 21000000 * 100000000.

(** A character of the class [[a-z0-9_]]. *)
Definition name_char (a : ascii) : bool :=
  let n := nat_of_ascii a in
  ((97 <=? n) && (n <=? 122) || (48 <=? n) && (n <=? 57) || (n =? 95))%nat.

Fixpoint all_name_chars (s : string) : bool :=
  match s with
  | EmptyString => true
  | String a s' => name_char a && all_name_chars s'
  end.

(** One to thirty-two characters of the class. *)
Definition name_body (s : string) : bool :=
  ((1 <=? String.length s) && (String.length s <=? 32))%nat && all_name_chars s.

(** The string without its final newline, when it ends in one. *)
Fixpoint chop_newline (s : string) : option string :=
  match s with
  | EmptyString => None
  | String a s' =>
      match s' with
      | EmptyString => if Ascii.eqb a "010" then Some EmptyString else None
      | String _ _ => option_map (String a) (chop_newline s')
      end
  end.

(** [re.match(r'^[a-z0-9_]{1,32}$', s)]: [$] matches at the end of the
    string and also just before a newline that ends it. *)
Definition command_name_re (s : string) : bool :=
  name_body s
  || match chop_newline s with Some body => name_body body | None => false end.

(** [len(v)]; [None] is [TypeError]. *)
Definition len_ (v : json) : option nat :=
  match v with
  | JStr s => Some (Str.len s)
  | JArr l => Some (length l)
  | JObj o => Some (size o)
  | JNull | JBool _ | JInt _ | JFloat _ => None
  end.

(** [sub in s] for two strings. *)
Definition contains (sub s : string) : bool :=
  match String.index 0 sub s with Some _ => true | None => false end.

(** [data.setdefault(k, v)]. *)
Definition setdefault (d : gmap string json) (k : string) (v : json)
    : gmap string json :=
  match d !! k with Some _ => d | None => <[k := v]> d end.

Section Validation.

(** Three built-ins of Python are taken as given: [int] on a [str]
    ([None] is [ValueError]), [str] on a float, a list or a dict, and
    [str.lower]. *)
Variable int_of_str : string -> option Z.
Variable repr : json -> string.
Variable str_lower : string -> string.

(** [int(v)].  A finite float is cut towards zero. *)
Definition int_ (v : json) : converted :=
  match v with
  | JInt z => IntOk z
  | JBool b => IntOk (if b then 1 else 0)
  | JStr s => match int_of_str s with Some z => IntOk z | None => IntInvalid end
  | JFloat (S754_zero _) => IntOk 0
  | JFloat (S754_finite sign m e) =>
      let magnitude := Z.shiftl (Zpos m) e in
      IntOk (if sign then - magnitude else magnitude)
  | JFloat (S754_infinity _) => IntOverflow
  | JFloat S754_nan => IntInvalid
  | JNull | JArr _ | JObj _ => IntInvalid
  end.

(** [str(v)]. *)
Definition str_ (v : json) : string :=
  match v with
  | JStr s => s
  | JInt z => pretty z
  | JBool true => "True"
  | JBool false => "False"
  | JNull => "None"
  | JFloat _ | JArr _ | JObj _ => repr v
  end.

(** The loop over the three id fields; [None]: all passed. *)
Fixpoint check_ids (data : gmap string json) (fields : list string)
    : option verdict :=
  match fields with
  | [] => None
  | field :: fields =>
      match int_ (Py.get data field) with
      | IntOk value =>
          if value <=? 0 then Some (Invalid (field +:+ " must be a positive number"))
          else check_ids data fields
      | IntInvalid => Some (Invalid (field +:+ " must be a valid number"))
      | IntOverflow => Some Raised
      end
  end.

(** The price block; [None]: passed. *)
Definition check_price (v : json) : option verdict :=
  match int_ v with
  | IntOk price =>
      if price <=? 0 then Some (Invalid "Price must be a positive number of sats")
      else if MAX_PRICE <? price then Some (Invalid "Price exceeds maximum possible sats")
      else None
  | IntInvalid => Some (Invalid "Price must be a valid number")
  | IntOverflow => Some Raised
  end.

(** [validate_config(data)] for a dict. *)
Definition validate_fields (data : gmap string json) : verdict :=
  match List.find (fun field => negb (Py.truthy (Py.get data field))) REQUIRED_FIELDS with
  | Some field => Invalid ("Missing required field: " +:+ field)
  | None =>
      let command_name := str_ (Py.get_default data "command_name" (JStr "")) in
      if negb (command_name_re (str_lower command_name)) then
        Invalid "Command name must be 1-32 characters, alphanumeric and underscores only"
      else
        match check_ids data ID_FIELDS with
        | Some v => v
        | None =>
            match check_price (Py.get data "price") with
            | Some v => v
            | None =>
                match len_ (Py.get_default data "invoicemessage" (JStr "")) with
                | None => Raised
                | Some n =>
                    if (1000 <? n)%nat then
                      Invalid "Invoice message must be 1000 characters or less"
                    else
                      match Py.get_default data "lnbits_url" (JStr "") with
                      | JStr lnbits_url =>
                          if Str.startswith "http://" lnbits_url
                             || Str.startswith "https://" lnbits_url
                          then Valid
                          else Invalid "LNBits URL must start with http:// or https://"
                      | _ => Raised
                      end
                end
            end
        end
  end.

(** [validate_config(data)] for any decoded request body.  On a list or
    a string the first [field not in data] is a membership or substring
    test, and a hit makes [data[field]] raise [TypeError]; on the other
    values the test itself raises. *)
Definition validate_config (data : json) : verdict :=
  match data with
  | JObj data => validate_fields data
  | JArr l =>
      if existsb (fun v => Py.eq_str v "discord_token") l then Raised
      else Invalid "Missing required field: discord_token"
  | JStr s =>
      if contains "discord_token" s then Raised
      else Invalid "Missing required field: discord_token"
  | JNull | JBool _ | JInt _ | JFloat _ => Raised
  end.

(** [data[field] = str(data[field])] for the four numeric fields. *)
Definition normalize (data : gmap string json) : gmap string json :=
  foldl (fun d field => <[field := JStr (str_ (Py.get d field))]> d)
        data NUMERIC_FIELDS.

(** [save_config()].  [req] is [request.json] ([None] when it raises),
    [file] the state of [CONFIG_FILE] before the call; the result is the
    answer and the state of the file after the call.  [json.dump] followed
    by [json.load] gives back the object. *)
Definition save_config (req : option json) (write : written)
    (file : option (option json)) : response * option (option json) :=
  match req with
  | None => (ServerError, file)
  | Some data =>
      match validate_config data with
      | Raised => (ServerError, file)
      | Invalid error_msg => (BadRequest error_msg, file)
      | Valid =>
          match data with
          | JObj d =>
              let d := setdefault d "invoicemessage" (JStr DEFAULT_INVOICE_MESSAGE) in
              let d := normalize d in
              match write with
              | Written => (Saved, Some (Some (JObj d)))
              | WriteFailed remains => (ServerError, remains)
              end
          | _ => (ServerError, file)
          end
      end
  end.

End Validation.

(* ===================================================================== *)
(** ** Reading traces *)
(* ===================================================================== *)

(** The member a call to Discord is about. *)
Definition target (a : action) : option Z :=
  match a with
  | FetchMember uid | AddRoles uid | SendGranted uid | SendAlready uid => Some uid
  | Log _ _ | Reply _ | PostInvoice _ _ _ => None
  end.

Definition is_fetch (a : action) : bool :=
  match a with FetchMember _ => true | _ => false end.

Definition is_send (a : action) : bool :=
  match a with SendGranted _ | SendAlready _ => true | _ => false end.

(** The handlers a stretch of the listener has started, in order. *)
Fixpoint spawned (o : list lout) : list (json * gmap string json) :=
  match o with
  | [] => []
  | LSpawn h p :: o => (h, p) :: spawned o
  | _ :: o => spawned o
  end.

(** The confirmations among a sequence of received texts, in order. *)
Fixpoint dispatched (msgs : list (option json)) : list (json * gmap string json) :=
  match msgs with
  | [] => []
  | msg :: msgs =>
      match handle_message msg with
      | Dispatched h p => (h, p) :: dispatched msgs
      | _ => dispatched msgs
      end
  end.

Definition is_connect (o : lout) : bool :=
  match o with LConnect => true | _ => false end.

(* ===================================================================== *)
(** ** The specification's vocabulary *)
(* ===================================================================== *)

(** These definitions follow the wording of the specification, not the
    code; the theorems below compare the two. *)

(** "the matching id is present": one of the two id fields of the payment
    update holds a non-empty value. *)
Definition id_present_by_spec (p : gmap string json) : Prop :=
  exists v, Py.truthy v = true
            /\ (p !! "checking_id" = Some v \/ p !! "payment_hash" = Some v).

(** "the amount is strictly positive": the amount field is a number above
    zero ([True] being the number one in Python). *)
Inductive positive_amount_by_spec (p : gmap string json) : Prop :=
| positive_int (z : Z) :
    p !! "amount" = Some (JInt z) -> 0 < z -> positive_amount_by_spec p
| positive_float (f : spec_float) :
    p !! "amount" = Some (JFloat f) -> SFltb (S754_zero false) f = true ->
    positive_amount_by_spec p
| positive_true :
    p !! "amount" = Some (JBool true) -> positive_amount_by_spec p.

(** "the status field equals success, the paid flag is true, or the
    pending flag is false". *)
Definition confirmed_by_spec (p : gmap string json) : Prop :=
  p !! "status" = Some (JStr "success")
  \/ p !! "paid" = Some (JBool true)
  \/ p !! "pending" = Some (JBool false).

(** "401 auth, 403 permission, 404 misconfiguration, >= 500 provider/node
    outage, other generic". *)
Inductive failure_class : Type :=
| Authentication | Permission | Misconfiguration | Outage | Generic.

Definition classify_by_spec (status_code : Z) : failure_class :=
  if status_code =? 401 then Authentication
  else if status_code =? 403 then Permission
  else if status_code =? 404 then Misconfiguration
  else if 500 <=? status_code then Outage
  else Generic.

(** The text the code shows for each class. *)
Definition message_of_class (cl : failure_class) (status_code : Z) : string :=
  match cl with
  | Authentication => "❌ LNBits authentication failed - invalid API key."
  | Permission =>
      "❌ LNBits permission denied - API key may not have invoice permission."
  | Misconfiguration =>
      "❌ LNBits endpoint not found - check server configuration."
  | Outage =>
      "❌ LNBits server error (" +:+ pretty status_code
        +:+ ") - Lightning node may be disconnected. Please contact admin."
  | Generic =>
      "❌ LNBits error (" +:+ pretty status_code +:+ "). Please try again later."
  end.

(** The age of a stored row at instant [c], in microseconds. *)
Definition age (c : clock) (r : invoice) : Z :=
  utc_micros c - created_at r * MICROS.

(** The expiry threshold, in microseconds. *)
Definition EXPIRY : Z := timedelta_hours INVOICE_EXPIRY_HOURS.

(* ===================================================================== *)
(** * Properties *)
(* ===================================================================== *)

(* ===================================================================== *)
(** ** The record store *)
(* ===================================================================== *)

Section Store.

Implicit Types (rows : table) (h : string) (c : clock) (r : invoice).

Lemma add_absent c h uid cid rows :
  rows !! h = None ->
  add_pending_invoice c h uid cid rows
  = (true, <[h := Invoice uid cid (CURRENT_TIMESTAMP c)]> rows).
Proof. intros E. unfold add_pending_invoice. by rewrite E. Qed.

Lemma add_present c h uid cid rows r :
  rows !! h = Some r -> add_pending_invoice c h uid cid rows = (false, rows).
Proof. intros E. unfold add_pending_invoice. by rewrite E. Qed.

(** Rows stored under other hashes are not touched by an insert. *)
Lemma add_other c h h' uid cid rows :
  h <> h' -> (add_pending_invoice c h uid cid rows).2 !! h' = rows !! h'.
Proof.
  intros N. unfold add_pending_invoice.
  destruct (rows !! h); simpl; [done | by rewrite lookup_insert_ne].
Qed.

(** C4: inserting the same payment hash twice, into a table that does not
    hold it, answers [True] and then [False]; the second call leaves the
    table as the first one made it: the row of the first call is still
    there and the number of rows is the same. *)
Theorem add_pending_invoice_twice c c' h uid cid uid' cid' rows :
  rows !! h = None ->
  let first := add_pending_invoice c h uid cid rows in
  let second := add_pending_invoice c' h uid' cid' first.2 in
  first.1 = true
  /\ second.1 = false
  /\ second.2 = first.2
  /\ second.2 !! h = Some (Invoice uid cid (CURRENT_TIMESTAMP c))
  /\ size second.2 = size first.2
  /\ size first.2 = S (size rows).
Proof.
  intros E first second. subst first second.
  rewrite (add_absent _ _ _ _ _ E). simpl.
  rewrite (add_present c' h uid' cid' _ (Invoice uid cid (CURRENT_TIMESTAMP c)))
    by apply lookup_insert_eq.
  simpl. rewrite lookup_insert_eq.
  repeat split. by apply map_size_insert_None.
Qed.

Lemma add_pending_invoice_twice_witness :
  let rows : table := {[ "aa" := Invoice 7 9 100 ]} in
  let c := Clock 5000000 0 in
  let first := add_pending_invoice c "bb" 1 2 rows in
  let second := add_pending_invoice (Clock 9000000 0) "bb" 3 4 first.2 in
  rows !! "bb" = None
  /\ first.1 = true
  /\ second.1 = false
  /\ second.2 = first.2
  /\ second.2 !! "bb" = Some (Invoice 1 2 (CURRENT_TIMESTAMP c))
  /\ size second.2 = size first.2
  /\ size first.2 = S (size rows).
Proof.
  intros rows c first second. split; [reflexivity |].
  apply (add_pending_invoice_twice c (Clock 9000000 0) "bb" 1 2 3 4 rows).
  reflexivity.
Defined.

End Store.

Section Expiry.

Implicit Types (rows : table) (h : string) (c : clock) (r : invoice).

#[local] Ltac clock_lia :=
  unfold age, EXPIRY, datetime_now, later, older_than, timedelta_hours,
    INVOICE_EXPIRY_HOURS, MICROS in *;
  simpl in *; lia.

(** A row survives the cleanup exactly when its stored second is not
    before the local wall clock minus one hour. *)
Lemma cleanup_lookup c rows h r :
  (cleanup_expired_invoices c rows).2 !! h = Some r
  <-> rows !! h = Some r /\ datetime_now c - EXPIRY <= created_at r * MICROS.
Proof.
  unfold cleanup_expired_invoices, EXPIRY. simpl.
  rewrite map_lookup_filter_Some. simpl.
  split; intros [E L]; (split; [exact E | clock_lia]).
Qed.

(** A filter and its complement split the rows. *)
Lemma size_filter_complement (P : string * invoice -> Prop)
    `{!forall kv, Decision (P kv)} rows :
  size rows = (size (filter P rows) + size (filter (fun kv => ~ P kv) rows))%nat.
Proof.
  rewrite <- map_size_disj_union by apply map_disjoint_filter_complement.
  by rewrite map_filter_union_complement.
Qed.

(** The answer is the number of rows that went away. *)
Lemma cleanup_count c rows :
  (cleanup_expired_invoices c rows).1
  = Z.of_nat (size rows) - Z.of_nat (size (cleanup_expired_invoices c rows).2).
Proof.
  unfold cleanup_expired_invoices. cbn [fst snd].
  match goal with
  | |- Z.of_nat (size (filter ?P _)) = _ =>
      pose proof (size_filter_complement P rows) as E
  end.
  cbn beta in E. lia.
Qed.

(** Rows are only removed, never changed or added. *)
Lemma cleanup_subseteq c rows : (cleanup_expired_invoices c rows).2 ⊆ rows.
Proof. apply map_filter_subseteq. Qed.

(** On a host whose local clock is UTC the cleanup does what its
    docstring says: it removes the rows older than one hour, keeps the
    others unchanged, and answers how many it removed. *)
Lemma cleanup_in_utc c rows :
  utc_offset c = 0 ->
  (forall h r, (cleanup_expired_invoices c rows).2 !! h = Some r
               <-> rows !! h = Some r /\ age c r <= EXPIRY)
  /\ (cleanup_expired_invoices c rows).1
     = Z.of_nat (size rows) - Z.of_nat (size (cleanup_expired_invoices c rows).2).
Proof.
  intros U. split; [| apply cleanup_count].
  intros h r. rewrite cleanup_lookup.
  split; intros [E L]; (split; [exact E | clock_lia]).
Qed.

(** The second stored for a row is at most one second behind the instant
    of the insert. *)
Lemma CURRENT_TIMESTAMP_bounds c :
  CURRENT_TIMESTAMP c * MICROS <= utc_micros c < CURRENT_TIMESTAMP c * MICROS + MICROS.
Proof.
  unfold CURRENT_TIMESTAMP, MICROS.
  pose proof (Z.div_mod (utc_micros c) 1000000 ltac:(lia)).
  pose proof (Z.mod_pos_bound (utc_micros c) 1000000 ltac:(lia)). lia.
Qed.

(** X6: the expiry scenario on a UTC host: a row inserted at [c] is
    listed from then on, survives every cleanup run up to one hour minus
    one second later, and is gone after a cleanup run more than one hour
    later. *)
Lemma expiry_in_utc c h uid cid rows d :
  utc_offset c = 0 -> rows !! h = None -> 0 <= d ->
  let stored := (add_pending_invoice c h uid cid rows).2 in
  let r := Invoice uid cid (CURRENT_TIMESTAMP c) in
  (h, r) ∈ get_all_pending_invoices stored
  /\ (d + MICROS <= EXPIRY ->
      (cleanup_expired_invoices (later c d) stored).2 !! h = Some r)
  /\ (EXPIRY < d ->
      (cleanup_expired_invoices (later c d) stored).2 !! h = None).
Proof.
  intros U E D stored r. subst stored. rewrite (add_absent _ _ _ _ _ E). simpl.
  pose proof (CURRENT_TIMESTAMP_bounds c) as B.
  split; [| split].
  - unfold get_all_pending_invoices. apply elem_of_map_to_list, lookup_insert_eq.
  - intros L. apply cleanup_lookup. split; [apply lookup_insert_eq |].
    subst r. clock_lia.
  - intros L. apply eq_None_not_Some. intros [r' F].
    apply cleanup_lookup in F as [F G].
    rewrite lookup_insert_eq in F. inversion F; subst r'.
    clock_lia.
Qed.

(** C5: the cleanup compares the UTC second stored by SQLite with the
    local wall clock of Python.  On a host two hours ahead of UTC a row
    inserted one second earlier is removed, although its age is far from
    the one-hour threshold. *)
Theorem cleanup_expired_invoices_local_clock :
  let c := Clock 1700000000000000 7200 in
  let rows := (add_pending_invoice c "aa" 1 2 ∅).2 in
  let sweep := later c 1000000 in
  rows !! "aa" = Some (Invoice 1 2 1700000000)
  /\ age sweep (Invoice 1 2 1700000000) = 1000000
  /\ cleanup_expired_invoices sweep rows = (1, ∅).
Proof. vm_compute. repeat split. Qed.

(** In the other direction, on a host five hours behind UTC a row that is
    three hours old is kept. *)
Lemma cleanup_expired_invoices_behind_utc :
  let c := Clock 1700000000000000 (-18000) in
  let rows := (add_pending_invoice c "aa" 1 2 ∅).2 in
  let sweep := later c (3 * 3600 * MICROS) in
  age sweep (Invoice 1 2 1700000000) = 3 * EXPIRY
  /\ cleanup_expired_invoices sweep rows = (0, rows).
Proof. vm_compute. repeat split. Qed.

End Expiry.

(* ===================================================================== *)
(** ** The payment event listener: which events are forwarded *)
(* ===================================================================== *)

Section Forwarding.

Implicit Types (p data : gmap string json) (h v : json).

Lemma eq_str_get p k s :
  Py.eq_str (Py.get p k) s = true <-> p !! k = Some (JStr s).
Proof.
  unfold Py.get. destruct (p !! k) as [[]|]; simpl; try (split; congruence).
  rewrite String.eqb_eq. split; congruence.
Qed.

Lemma is_True_get p k :
  Py.is_True (Py.get p k) = true <-> p !! k = Some (JBool true).
Proof.
  unfold Py.get. destruct (p !! k) as [[| [] | | | | |]|]; simpl; split; congruence.
Qed.

Lemma is_False_get p k :
  Py.is_False (Py.get p k) = true <-> p !! k = Some (JBool false).
Proof.
  unfold Py.get. destruct (p !! k) as [[| [] | | | | |]|]; simpl; split; congruence.
Qed.

(** The code's [is_paid] is the specification's rule of three signals. *)
Lemma is_paid_spec p : is_paid p = true <-> confirmed_by_spec p.
Proof.
  unfold is_paid, confirmed_by_spec.
  rewrite !orb_true_iff, eq_str_get, is_True_get, is_False_get. tauto.
Qed.

Lemma truthy_get p k :
  Py.truthy (Py.get p k) = true <-> exists v, p !! k = Some v /\ Py.truthy v = true.
Proof.
  unfold Py.get. destruct (p !! k) as [v|]; simpl.
  - split; [eauto | by intros (? & [= <-] & ?)].
  - split; [done | by intros (? & ? & ?)].
Qed.

(** The code's [h] is truthy exactly when an id is present. *)
Lemma matching_id_spec p :
  Py.truthy (matching_id p) = true <-> id_present_by_spec p.
Proof.
  unfold matching_id, Py.or_, id_present_by_spec.
  destruct (Py.truthy (Py.get p "checking_id")) eqn:E.
  - rewrite E. apply truthy_get in E as (v & E & T). split; [eauto | done].
  - rewrite truthy_get. split.
    + intros (v & F & T). eauto.
    + intros (v & T & [F | F]); [| eauto].
      assert (Py.truthy (Py.get p "checking_id") = true) by (apply truthy_get; eauto).
      congruence.
Qed.

(** The comparison [amt > 0] answers [True] exactly on a positive amount. *)
Lemma amount_spec p :
  Py.gt_zero (Py.get_default p "amount" (JInt 0)) = Some true
  <-> positive_amount_by_spec p.
Proof.
  unfold Py.get_default. split.
  - destruct (p !! "amount") as [[| b | z | f | | |]|] eqn:E; simpl; try done.
    + intros [= ->]. by apply positive_true.
    + intros [= L]. apply (positive_int p z); [done | by apply Z.ltb_lt].
    + intros [= L]. by apply (positive_float p f).
  - intros [z E L | f E L | E]; rewrite E; simpl; [| by rewrite L | done].
    f_equal. by apply Z.ltb_lt.
Qed.

(** The three tests of the read loop, read off the code. *)
Lemma handle_message_dispatched (msg : option json) h p :
  handle_message msg = Dispatched h p
  <-> (exists data, msg = Some (JObj data) /\ data !! "payment" = Some (JObj p))
      /\ h = matching_id p
      /\ Py.truthy (matching_id p) = true
      /\ Py.gt_zero (Py.get_default p "amount" (JInt 0)) = Some true
      /\ is_paid p = true.
Proof.
  split.
  - destruct msg as [[| | | | | | data]|]; simpl; try done.
    unfold Py.get at 1.
    destruct (data !! "payment") as [[| | | | | | q]|] eqn:E; simpl; try done.
    destruct (Py.truthy (matching_id q)) eqn:T; simpl; [| done].
    destruct (is_paid q) eqn:I; simpl; [| done].
    destruct (Py.gt_zero _) as [[]|] eqn:G; try done.
    intros [= <- <-]. rewrite T, I, G. eauto 10.
  - intros ((data & -> & E) & -> & T & G & I). simpl.
    unfold Py.get at 1. rewrite E. simpl. by rewrite T, I, G.
Qed.

(** C3: a received text makes the listener start the grant handler for id
    [h] and payment update [p] if and only if the text is a JSON object
    whose [payment] member is the object [p], [h] is the id of [p]
    ([checking_id], else [payment_hash]) and is present, the amount of [p]
    is strictly positive, and [p] is confirmed by its status, its paid flag
    or its pending flag.  In particular no confirmation flag forwards an
    event without id or with an amount of zero or less. *)
Theorem confirmation_forwarded_iff (msg : option json) h p :
  handle_message msg = Dispatched h p
  <-> (exists data, msg = Some (JObj data) /\ data !! "payment" = Some (JObj p))
      /\ h = matching_id p
      /\ id_present_by_spec p
      /\ positive_amount_by_spec p
      /\ confirmed_by_spec p.
Proof.
  rewrite <- matching_id_spec, <- amount_spec, <- is_paid_spec.
  apply handle_message_dispatched.
Qed.

(** Whatever its flags say, an event whose amount is an integer [z <= 0],
    or which has no amount, is not forwarded. *)
Lemma nonpositive_amount_dropped msg h p :
  (p !! "amount" = None \/ exists z, p !! "amount" = Some (JInt z) /\ z <= 0) ->
  handle_message msg <> Dispatched h p.
Proof.
  intros A D. apply handle_message_dispatched in D as (_ & _ & _ & G & _).
  unfold Py.get_default in G.
  destruct A as [A | (z & A & L)]; rewrite A in G; simpl in G; [done |].
  injection G as G. apply Z.ltb_lt in G. lia.
Qed.

(** Whatever its flags say, an event that carries neither id field is not
    forwarded. *)
Lemma missing_id_dropped msg h p :
  p !! "checking_id" = None -> p !! "payment_hash" = None ->
  handle_message msg <> Dispatched h p.
Proof.
  intros A B D. apply handle_message_dispatched in D as (_ & _ & T & _).
  unfold matching_id, Py.or_, Py.get in T. by rewrite A, B in T.
Qed.

(** The three signals, each alone: a payment update with an id and the
    amount 1000 is forwarded on [status = "success"], on [paid = true] and
    on [pending = false]. *)
Lemma each_signal_confirms :
  let event (k : string) (v : json) : option json :=
    Some (JObj {[ "payment" :=
      JObj (<[k := v]> (<["payment_hash" := JStr "aa"]> {[ "amount" := JInt 1000 ]})) ]}) in
  (exists p, handle_message (event "status" (JStr "success")) = Dispatched (JStr "aa") p)
  /\ (exists p, handle_message (event "paid" (JBool true)) = Dispatched (JStr "aa") p)
  /\ (exists p, handle_message (event "pending" (JBool false)) = Dispatched (JStr "aa") p)
  /\ handle_message (event "pending" (JBool true)) = Ignored
  /\ handle_message (event "paid" (JInt 1)) = Ignored.
Proof. vm_compute. eauto 10. Qed.

End Forwarding.

(* ===================================================================== *)
(** ** Creating a payment request *)
(* ===================================================================== *)

Section Creation.

Implicit Types (rows : table) (c : clock) (i : interaction) (CHANNEL_ID : Z).

(** The code tests [>= 500] first and the specification lists it last;
    the classes do not overlap, so the order does not matter. *)
Lemma get_lnbits_error_message_classified status_code text :
  get_lnbits_error_message status_code text
  = message_of_class (classify_by_spec status_code) status_code.
Proof.
  unfold get_lnbits_error_message, classify_by_spec.
  destruct (Z.leb_spec 500 status_code), (Z.eqb_spec status_code 401),
    (Z.eqb_spec status_code 403), (Z.eqb_spec status_code 404);
    try lia; reflexivity.
Qed.

Lemma classify_by_spec_cases status_code :
  (status_code = 401 -> classify_by_spec status_code = Authentication)
  /\ (status_code = 403 -> classify_by_spec status_code = Permission)
  /\ (status_code = 404 -> classify_by_spec status_code = Misconfiguration)
  /\ (500 <= status_code -> classify_by_spec status_code = Outage)
  /\ (status_code < 500 -> status_code <> 401 -> status_code <> 403 ->
      status_code <> 404 -> classify_by_spec status_code = Generic).
Proof.
  unfold classify_by_spec.
  destruct (Z.leb_spec 500 status_code), (Z.eqb_spec status_code 401),
    (Z.eqb_spec status_code 403), (Z.eqb_spec status_code 404);
    repeat split; intros; try lia; reflexivity.
Qed.

(** C6: when LNbits answers the creation request with a status other than
    201, the command replies with the message of the status's class (401
    authentication, 403 permission, 404 misconfiguration, 500 and above
    outage, anything else generic), logs the answer, posts nothing and
    leaves the table of pending invoices as it was. *)
Theorem provider_error_not_stored CHANNEL_ID c i rows status_code text body :
  i_channel_found i = true ->
  i_post i = Response status_code text body ->
  status_code <> 201 ->
  dynamic_command CHANNEL_ID c i rows
  = Some (rows,
          [Reply (message_of_class (classify_by_spec status_code) status_code);
           Log ERROR "LNBits error response"],
          Returns).
Proof.
  intros F P N. unfold dynamic_command. rewrite F, P. simpl.
  destruct (Z.eqb_spec status_code 201); [done |]. simpl.
  by rewrite get_lnbits_error_message_classified.
Qed.

Lemma provider_error_not_stored_witness :
  let i := Interaction 2 true (Response 503 "Bad Gateway" None) Returns Returns in
  let rows : table := {[ "aa" := Invoice 1 9 100 ]} in
  dynamic_command 9 (Clock 5000000 0) i rows
  = Some (rows,
          [Reply (message_of_class (classify_by_spec 503) 503);
           Log ERROR "LNBits error response"],
          Returns).
Proof.
  intros i rows.
  apply (provider_error_not_stored 9 (Clock 5000000 0) i rows 503 "Bad Gateway" None);
    [reflexivity | reflexivity | lia].
Defined.

(** The command stores a row only on the path that presents the invoice:
    every other path leaves the table as it was. *)
Lemma dynamic_command_stores_only_when_posting CHANNEL_ID c i rows rows' acts o :
  dynamic_command CHANNEL_ID c i rows = Some (rows', acts, o) ->
  existsb is_post acts = false -> rows' = rows.
Proof.
  unfold dynamic_command.
  destruct (i_channel_found i); simpl; [| by intros [= <- <- <-]].
  destruct (i_post i) as [| | | s t [[| | | | | | inv]|]];
    try (by intros [= <- <- <-]);
    destruct (s =? 201); simpl; try (by intros [= <- <- <-]).
  destruct (negb _ || negb _); [by intros [= <- <- <-] |].
  destruct (Py.get inv "payment_hash"); try done.
  intros [= <- <- <-]. unfold present. simpl.
  rewrite existsb_app. simpl. rewrite orb_true_r. done.
Qed.

(** C2, as the code has it: after a 201 answer whose payment hash is
    already stored, the insert answers [False] and leaves the stored row as
    it was, and the command goes on as after a fresh insert: it logs the
    creation and presents the payment request. *)
Theorem duplicate_insert_not_examined CHANNEL_ID c i rows text inv pr k r :
  i_channel_found i = true ->
  i_post i = Response 201 text (Some (JObj inv)) ->
  inv !! "bolt11" = Some pr -> Py.truthy pr = true ->
  inv !! "payment_hash" = Some (JStr k) -> k <> "" ->
  rows !! k = Some r ->
  (add_pending_invoice c k (i_user i) CHANNEL_ID rows).1 = false
  /\ dynamic_command CHANNEL_ID c i rows
     = Some (rows, Log INFO "Created invoice" :: present i pr (JStr k), Returns)
  /\ existsb is_post (present i pr (JStr k)) = true.
Proof.
  intros F P B T H N E.
  rewrite (add_present _ _ _ _ _ _ E). split; [done |]. split.
  - unfold dynamic_command. rewrite F, P. simpl.
    unfold Py.get. rewrite B, H. simpl. rewrite T. simpl.
    destruct (String.eqb_spec k ""); [done |]. simpl.
    by rewrite (add_present _ _ _ _ _ _ E).
  - unfold present. rewrite existsb_app. simpl. by rewrite orb_true_r.
Qed.

Lemma duplicate_insert_not_examined_witness :
  let rows : table := {[ "aa" := Invoice 1 9 100 ]} in
  let inv : gmap string json :=
    <["bolt11" := JStr "lnbc1"]> {[ "payment_hash" := JStr "aa" ]} in
  let i := Interaction 2 true (Response 201 "" (Some (JObj inv))) Returns Returns in
  let c := Clock 5000000 0 in
  (add_pending_invoice c "aa" (i_user i) 9 rows).1 = false
  /\ dynamic_command 9 c i rows
     = Some (rows, Log INFO "Created invoice" :: present i (JStr "lnbc1") (JStr "aa"),
             Returns)
  /\ existsb is_post (present i (JStr "lnbc1") (JStr "aa")) = true.
Proof.
  intros rows inv i c.
  apply (duplicate_insert_not_examined 9 c i rows "" inv (JStr "lnbc1") "aa"
           (Invoice 1 9 100)); try reflexivity.
  discriminate.
Defined.

(** C2, as the specification has it, fails: the hash [aa] is stored for
    user 1; user 2 runs the command and LNbits answers 201 with the same
    hash.  The insert reports the duplicate, and the command presents the
    payment request and answers that the invoice was posted. *)
Lemma duplicate_insert_surfaces_no_error :
  let rows : table := {[ "aa" := Invoice 1 9 100 ]} in
  let inv : gmap string json :=
    <["bolt11" := JStr "lnbc1"]> {[ "payment_hash" := JStr "aa" ]} in
  let i := Interaction 2 true (Response 201 "" (Some (JObj inv))) Returns Returns in
  let c := Clock 5000000 0 in
  (add_pending_invoice c "aa" 2 9 rows).1 = false
  /\ dynamic_command 9 c i rows
     = Some (rows,
             [Log INFO "Created invoice";
              PostInvoice (JStr "lnbc1") (JStr "aa") true;
              Reply "✅ Invoice posted!"],
             Returns).
Proof. vm_compute. split; reflexivity. Qed.

End Creation.

(* ===================================================================== *)
(** ** Handling a confirmation *)
(* ===================================================================== *)

Section Confirmation.

Implicit Types (rows : table) (h : string) (e : discord) (r : invoice).

#[local] Ltac by_cases e :=
  destruct e as [[] [] [] [] [] [] [] []]; simpl in *.

(** The granting steps do not touch the table. *)
Lemma assign_role_table e h rows :
  (assign_role_after_payment e h rows).1.1
  = match rows !! h with Some _ => delete h rows | None => rows end.
Proof.
  unfold assign_role_after_payment, get_pending_invoice, grant.
  destruct (rows !! h); [| done]. by_cases e; reflexivity.
Qed.

(** C8: when the handler finds a row for the hash, the table it leaves is
    the one without that row, whatever Discord answers in the granting
    steps: no failure puts the row back.  When it finds none, it logs at
    info level and returns with the table as it was, without a call to
    Discord. *)
Theorem consumed_record_is_not_restored e h rows :
  match rows !! h with
  | Some r =>
      (assign_role_after_payment e h rows).1.1 = delete h rows
      /\ (assign_role_after_payment e h rows).1.1 !! h = None
  | None =>
      assign_role_after_payment e h rows
      = (rows, [log_processing; log_not_found], Returns)
  end.
Proof.
  destruct (rows !! h) as [r|] eqn:E.
  - rewrite assign_role_table, E. split; [done | apply lookup_delete_eq].
  - unfold assign_role_after_payment, get_pending_invoice. by rewrite E.
Qed.

(** Rows stored under other hashes are not touched by the handler. *)
Lemma assign_role_other e h h' rows :
  h <> h' -> (assign_role_after_payment e h rows).1.1 !! h' = rows !! h'.
Proof.
  intros N. rewrite assign_role_table.
  destruct (rows !! h); [by apply lookup_delete_ne | done].
Qed.

(** A second delivery of the same confirmation finds nothing. *)
Lemma second_delivery_not_found e e' h rows :
  assign_role_after_payment e' h (assign_role_after_payment e h rows).1.1
  = ((assign_role_after_payment e h rows).1.1,
     [log_processing; log_not_found], Returns).
Proof.
  assert ((assign_role_after_payment e h rows).1.1 !! h = None) as N.
  { rewrite assign_role_table.
    destruct (rows !! h) eqn:E; [apply lookup_delete_eq | done]. }
  unfold assign_role_after_payment at 1, get_pending_invoice. by rewrite N.
Qed.

(** C9, as the code has it: once guild, member and role are resolved, a
    member who holds the role is not given it again, and is told so
    exactly when the invoice channel resolves; a member who does not hold
    it gets one [add_roles] call, and the public acknowledgment is sent
    exactly when that call succeeds and the invoice channel resolves. *)
Theorem grant_is_idempotent e h rows r :
  rows !! h = Some r ->
  guild_found e = true ->
  member_cached e = true \/ fetch_member e = Returns ->
  role_found e = true ->
  let acts := (assign_role_after_payment e h rows).1.2 in
  let uid := user_id r in
  (holds_role e = true ->
     ~ In (AddRoles uid) acts
     /\ ~ In (SendGranted uid) acts
     /\ (In (SendAlready uid) acts <-> channel_found e = true))
  /\ (holds_role e = false ->
        In (AddRoles uid) acts
        /\ ~ In (SendAlready uid) acts
        /\ (In (SendGranted uid) acts
            <-> add_roles e = Returns /\ channel_found e = true)).
Proof.
  intros E G M R acts uid. subst acts uid.
  unfold assign_role_after_payment, get_pending_invoice, grant. rewrite E.
  generalize (user_id r). intros uid.
  by_cases e; try discriminate; try (destruct M; discriminate);
    (split; intros H; try discriminate H);
    unfold log_processing, log_found, log_no_channel, log_assigned,
      log_assign_error;
    intuition congruence.
Qed.

Lemma grant_is_idempotent_witness :
  let e := Discord true true Returns true true true Returns Returns in
  let rows : table := {[ "aa" := Invoice 1 9 100 ]} in
  let acts := (assign_role_after_payment e "aa" rows).1.2 in
  (holds_role e = true ->
     ~ In (AddRoles 1) acts
     /\ ~ In (SendGranted 1) acts
     /\ (In (SendAlready 1) acts <-> channel_found e = true))
  /\ (holds_role e = false ->
        In (AddRoles 1) acts
        /\ ~ In (SendAlready 1) acts
        /\ (In (SendGranted 1) acts
            <-> add_roles e = Returns /\ channel_found e = true)).
Proof.
  intros e rows.
  apply (grant_is_idempotent e "aa" rows (Invoice 1 9 100));
    [reflexivity | reflexivity | left; reflexivity | reflexivity].
Defined.

(** C9, as the specification has it, fails: the member holds the role and
    the invoice channel does not resolve; the handler sends no
    acknowledgment at all. *)
Lemma already_held_without_acknowledgment :
  let e := Discord true true Returns true false true Returns Returns in
  let rows : table := {[ "aa" := Invoice 1 9 100 ]} in
  assign_role_after_payment e "aa" rows
  = (∅, [log_processing; log_found; log_no_channel], Returns).
Proof. vm_compute. reflexivity. Qed.

(** And for a member who does not hold the role: when [add_roles] raises,
    the role is not assigned and nothing is sent. *)
Lemma failed_grant_without_acknowledgment :
  let e := Discord true true Returns true true false Raises Returns in
  let rows : table := {[ "aa" := Invoice 1 9 100 ]} in
  assign_role_after_payment e "aa" rows
  = (∅, [log_processing; log_found; AddRoles 1; log_assign_error], Returns).
Proof. vm_compute. reflexivity. Qed.

End Confirmation.

(* ===================================================================== *)
(** ** Concurrent confirmations for one hash *)
(* ===================================================================== *)

Section Loop.

Implicit Types (rows : table) (h : string) (e : discord) (r : invoice) (p : pc).
Implicit Types (st : loop) (t : task) (ts : list task) (i : nat).

(** Case analysis on the answers of Discord that a run reads. *)
#[local] Ltac answers e :=
  destruct e as [g mc fm rf cf hr ar cs]; simpl;
  repeat (match goal with
          | |- context [if ?b then _ else _] => destruct b
          | |- context [match ?o with Returns => _ | Raises => _ end] => destruct o
          end; simpl).

Lemma segment_start_found e h rows r :
  rows !! h = Some r ->
  exists p a, run_to_await SEGMENT e h PStart rows = (p, delete h rows, a)
              /\ settled p = true /\ obtained p = Some r.
Proof.
  intros E. unfold SEGMENT. cbn. unfold get_pending_invoice. rewrite E. cbn.
  answers e; eauto.
Qed.

Lemma segment_start_absent e h rows :
  rows !! h = None ->
  run_to_await SEGMENT e h PStart rows
  = (PDone None Returns, rows, [log_processing; log_not_found]).
Proof.
  intros E. unfold SEGMENT. cbn. unfold get_pending_invoice. by rewrite E.
Qed.

Lemma segment_settled e h rows p :
  settled p = true ->
  exists p' a, run_to_await SEGMENT e h p rows = (p', rows, a)
               /\ settled p' = true /\ obtained p' = obtained p.
Proof.
  intros S. destruct p; try discriminate; unfold SEGMENT; cbn;
    answers e; eauto.
Qed.

Lemma segment_done e h rows got o :
  run_to_await SEGMENT e h (PDone got o) rows = (PDone got o, rows, []).
Proof. reflexivity. Qed.

(** Run alone, the task is the handler: same table, same actions, same
    way of ending. *)
Lemma run_alone_is_the_handler e h rows :
  run_alone 3 e h PStart rows
  = let '(rows', acts, o) := assign_role_after_payment e h rows in
    (PDone (rows !! h) o, rows', acts).
Proof.
  unfold assign_role_after_payment, run_alone, SEGMENT, grant. cbn.
  unfold get_pending_invoice. destruct (rows !! h) as [r|] eqn:E; cbn; [| done].
  answers e; reflexivity.
Qed.

(** Replacing one element changes a count by that element's share. *)
Lemma length_filter_insert {A} (P : A -> Prop) `{!forall x, Decision (P x)}
    (l : list A) (i : nat) (x y : A) :
  l !! i = Some x ->
  (length (filter P (<[i := y]> l)) + (if decide (P x) then 1 else 0)
   = length (filter P l) + (if decide (P y) then 1 else 0))%nat.
Proof.
  revert i. induction l as [| z l IH]; intros [| i] E; simplify_eq/=.
  - rewrite !filter_cons. repeat case_decide; simpl; lia.
  - specialize (IH _ E). rewrite !filter_cons.
    repeat case_decide; simpl in *; lia.
Qed.

Lemma classified_once t :
  classified t ->
  ((if decide (t_pc t = PStart) then 1 else 0)
   + (if decide (is_Some (obtained (t_pc t))) then 1 else 0)
   + (if decide (t_pc t = PDone None Returns) then 1 else 0) = 1)%nat.
Proof.
  unfold classified. intros C.
  assert (forall A (x : A), is_Some (Some x)) as S by (intros; eauto).
  assert (~ @is_Some invoice None) as N by (by intros [? ?]).
  destruct (t_pc t) as [| | | | | | | | [r|] []];
    destruct C as [C | [[C1 C2] | C]]; simplify_eq/=;
    repeat case_decide; simplify_eq/=; try done; exfalso; eauto.
Qed.

Lemma classes_partition ts :
  Forall classified ts ->
  (fresh ts + holders ts + turned_away ts = length ts)%nat.
Proof.
  unfold fresh, holders, turned_away.
  induction 1 as [| t ts C _ IH]; [done |].
  apply classified_once in C. rewrite !filter_cons. simpl.
  repeat case_decide; simpl in *; lia.
Qed.

Lemma count_insert_same {A} (P : A -> Prop) `{!forall x, Decision (P x)}
    (l : list A) (i : nat) (x y : A) :
  l !! i = Some x -> (P x <-> P y) ->
  length (filter P (<[i := y]> l)) = length (filter P l).
Proof.
  intros E I. pose proof (length_filter_insert P l i x y E) as L.
  repeat case_decide; try tauto; lia.
Qed.

Lemma settled_not_start p : settled p = true -> p <> PStart.
Proof. by destruct p. Qed.

(** Giving the thread to any task keeps the invariant. *)
Lemma resume_inv rows0 h r st i :
  rows0 !! h = Some r -> loop_inv rows0 h st -> loop_inv rows0 h (resume st i).
Proof.
  intros E [Hh Hc Hd]. unfold resume.
  destruct (tasks st !! i) as [t|] eqn:Ti; [| by constructor].
  pose proof (proj1 (Forall_lookup _ _) Hh i t Ti) as Th. simpl in Th.
  pose proof (proj1 (Forall_lookup _ _) Hc i t Ti) as [St | [[Se So] | Dn]].
  - rewrite St, Th. destruct Hd as [[Db Fr] | [Db Ho]].
    + rewrite Db.
      destruct (segment_start_found (t_env t) h rows0 r E) as (p & a & -> & Sp & Op).
      constructor; simpl.
      * by apply Forall_insert.
      * apply Forall_insert; [done |]. right; left. simpl. rewrite Op. eauto.
      * right. split; [done |].
        pose proof (classes_partition _ Hc) as Pa.
        pose proof (length_filter_insert
                      (fun t => is_Some (obtained (t_pc t))) (tasks st) i t
                      (Task (t_env t) h p (t_done t ++ a)) Ti) as L.
        simpl in L. rewrite St, Op in L. simpl in L.
        unfold holders in *. repeat case_decide; try lia.
    + rewrite Db, segment_start_absent by apply lookup_delete_eq.
      constructor; simpl.
      * by apply Forall_insert.
      * apply Forall_insert; [done |]. by right; right.
      * right. split; [done |]. rewrite <- Ho. unfold holders.
        apply (count_insert_same _ _ _ t); [done |]. simpl. rewrite St. simpl.
        split; intros []%is_Some_None.
  - destruct (segment_settled (t_env t) (t_hash t) (db st) _ Se)
      as (p & a & -> & Sp & Op).
    constructor; simpl.
    + by apply Forall_insert.
    + apply Forall_insert; [done |]. right; left. simpl. by rewrite Op.
    + destruct Hd as [[Db Fr] | [Db Ho]]; [left | right]; (split; [done |]).
      * rewrite length_insert, <- Fr. unfold fresh.
        apply (count_insert_same _ _ _ t); [done |]. simpl.
        split; intros Q; exfalso;
          [by apply (settled_not_start _ Se) | by apply (settled_not_start _ Sp)].
      * rewrite <- Ho. unfold holders.
        apply (count_insert_same _ _ _ t); [done |]. simpl. by rewrite Op.
  - rewrite Dn, segment_done.
    constructor; simpl.
    + by apply Forall_insert.
    + apply Forall_insert; [done |]. by right; right.
    + destruct Hd as [[Db Fr] | [Db Ho]]; [left | right]; (split; [done |]).
      * rewrite length_insert, <- Fr. unfold fresh.
        apply (count_insert_same _ _ _ t); [done |]. simpl. by rewrite Dn.
      * rewrite <- Ho. unfold holders.
        apply (count_insert_same _ _ _ t); [done |]. simpl. rewrite Dn. simpl.
        done.
Qed.

Lemma spawn_inv rows0 h envs : loop_inv rows0 h (Loop rows0 (spawn envs h)).
Proof.
  constructor; simpl.
  - unfold spawn. apply Forall_map, Forall_forall. done.
  - unfold spawn. apply Forall_map, Forall_forall. intros e _. by left.
  - left. split; [done |]. unfold fresh, spawn.
    induction envs as [| e envs IH]; [done |].
    cbn [map length]. rewrite filter_cons. cbn [t_pc].
    case_decide; [| done]. cbn [length]. by rewrite IH.
Qed.

Lemma run_loop_inv rows0 h r sched st :
  rows0 !! h = Some r -> loop_inv rows0 h st -> loop_inv rows0 h (run_loop st sched).
Proof.
  intros E. revert st. induction sched as [| i sched IH]; intros st I; [done |].
  simpl. apply IH. by apply (resume_inv _ _ r).
Qed.

(** A task that has run never stands at its start again. *)
Lemma segment_not_start e h p rows :
  (run_to_await SEGMENT e h p rows).1.1 <> PStart.
Proof.
  destruct p; unfold SEGMENT; cbn; unfold get_pending_invoice;
    try destruct (rows !! h); cbn; answers e; done.
Qed.

Lemma resume_length st i : length (tasks (resume st i)) = length (tasks st).
Proof.
  unfold resume. destruct (tasks st !! i) as [t|]; [| done].
  destruct (run_to_await _ _ _ _ _) as [[p rows] a]. simpl. apply length_insert.
Qed.

Lemma resume_started st i : (i < length (tasks st))%nat -> started (resume st i) i.
Proof.
  intros L. unfold resume, started.
  destruct (lookup_lt_is_Some_2 _ _ L) as [t Ti]. rewrite Ti.
  pose proof (segment_not_start (t_env t) (t_hash t) (t_pc t) (db st)) as N.
  destruct (run_to_await _ _ _ _ _) as [[p rows] a]. simpl in *.
  eexists. split; [by apply list_lookup_insert_eq | done].
Qed.

Lemma resume_keeps_started st i j : started st j -> started (resume st i) j.
Proof.
  intros (t & Tj & N). destruct (decide (i = j)) as [-> | D].
  - apply resume_started. by eapply lookup_lt_Some.
  - unfold resume, started. destruct (tasks st !! i) as [u|]; [| eauto].
    destruct (run_to_await _ _ _ _ _) as [[p rows] a]. simpl.
    exists t. by rewrite list_lookup_insert_ne.
Qed.

Lemma run_loop_length st sched :
  length (tasks (run_loop st sched)) = length (tasks st).
Proof.
  revert st. induction sched as [| i sched IH]; intros st; [done |].
  simpl. by rewrite IH, resume_length.
Qed.

Lemma run_loop_keeps_started st sched j :
  started st j -> started (run_loop st sched) j.
Proof.
  revert st. induction sched as [| i sched IH]; intros st S; [done |].
  simpl. by apply IH, resume_keeps_started.
Qed.

(** Every task the schedule names has run. *)
Lemma run_loop_started st sched i :
  In i sched -> (i < length (tasks st))%nat -> started (run_loop st sched) i.
Proof.
  revert st. induction sched as [| j sched IH]; intros st M L; [done |].
  simpl. destruct M as [-> | M].
  - by apply run_loop_keeps_started, resume_started.
  - apply IH; [done | by rewrite resume_length].
Qed.

Lemma fresh_all ts i t :
  fresh ts = length ts -> ts !! i = Some t -> t_pc t = PStart.
Proof.
  unfold fresh. revert i. induction ts as [| u ts IH]; intros i F E; [done |].
  rewrite filter_cons in F. pose proof (length_filter (fun t => t_pc t = PStart) ts).
  case_decide; simpl in F; [| lia].
  destruct i as [| i]; simplify_eq/=; [done |]. eapply IH; [lia | done].
Qed.

Lemma fresh_none ts :
  (forall i, (i < length ts)%nat -> exists t, ts !! i = Some t /\ t_pc t <> PStart) ->
  fresh ts = 0%nat.
Proof.
  unfold fresh. induction ts as [| u ts IH]; intros A; [done |].
  rewrite filter_cons. destruct (A 0%nat) as (t & [= <-] & N); [simpl; lia |].
  case_decide; [done |]. apply IH. intros i L.
  destruct (A (S i)) as (t & E & N'); [simpl; lia |]. eauto.
Qed.

(** C1, as the code has it: [n] confirmations for one stored hash are
    tasks of one event loop, which gives the thread to one task at a time
    and takes it back only at an [await].  Whatever the order in which the
    tasks are resumed, at most one of them holds the row; as soon as one
    of them has run, exactly one holds it and the row is gone from the
    table; and once all have run, the other [n - 1] have ended on the
    not-found branch.  The lookup and the delete are two database calls
    of the same uninterrupted stretch of the task. *)
Theorem one_confirmation_takes_the_record (envs : list discord) h r rows
    (sched : list nat) :
  rows !! h = Some r ->
  let st := run_loop (Loop rows (spawn envs h)) sched in
  let n := length envs in
  (holders (tasks st) <= 1)%nat
  /\ ((exists i, In i sched /\ (i < n)%nat) ->
        holders (tasks st) = 1%nat /\ db st = delete h rows)
  /\ ((0 < n)%nat -> (forall i, (i < n)%nat -> In i sched) ->
        holders (tasks st) = 1%nat /\ turned_away (tasks st) = (n - 1)%nat).
Proof.
  intros E st n.
  pose proof (run_loop_inv rows h r sched _ E (spawn_inv rows h envs)) as [Hh Hc Hd].
  fold st in Hh, Hc, Hd.
  pose proof (classes_partition _ Hc) as Pa.
  assert (length (tasks st) = n) as Len.
  { subst st n. rewrite run_loop_length. simpl. unfold spawn. apply length_map. }
  assert (forall i, In i sched -> (i < n)%nat -> started st i) as St.
  { intros i M L. apply run_loop_started; [done |].
    simpl. unfold spawn. by rewrite length_map. }
  assert ((exists i, In i sched /\ (i < n)%nat) ->
          holders (tasks st) = 1%nat /\ db st = delete h rows) as One.
  { intros (i & M & L). destruct Hd as [[Db Fr] | [Db Ho]]; [| done].
    destruct (St i M L) as (t & Ti & N). by rewrite (fresh_all _ _ _ Fr Ti) in N. }
  split; [| split].
  - destruct Hd as [[Db Fr] | [Db Ho]]; lia.
  - exact One.
  - intros Pos All. destruct One as [Ho _]; [exists 0%nat; eauto |].
    split; [done |].
    assert (fresh (tasks st) = 0%nat) as Fr.
    { apply fresh_none. intros i L. apply St; [apply All |]; lia. }
    lia.
Qed.

Lemma one_confirmation_takes_the_record_witness :
  let e := Discord true true Returns true true false Returns Returns in
  let rows : table := {[ "aa" := Invoice 1 9 100 ]} in
  let sched := [1; 0; 2; 1; 0; 1]%nat in
  let st := run_loop (Loop rows (spawn [e; e; e] "aa")) sched in
  let n := length [e; e; e] in
  (holders (tasks st) <= 1)%nat
  /\ ((exists i, In i sched /\ (i < n)%nat) ->
        holders (tasks st) = 1%nat /\ db st = delete "aa" rows)
  /\ ((0 < n)%nat -> (forall i, (i < n)%nat -> In i sched) ->
        holders (tasks st) = 1%nat /\ turned_away (tasks st) = (n - 1)%nat).
Proof.
  intros e rows sched.
  apply (one_confirmation_takes_the_record [e; e; e] "aa" (Invoice 1 9 100) rows sched).
  reflexivity.
Defined.

(** The same three confirmations, on the event loop: the second task
    takes the row and grants, the other two are turned away. *)
Lemma three_confirmations_one_grant :
  let e := Discord true true Returns true true false Returns Returns in
  let rows : table := {[ "aa" := Invoice 1 9 100 ]} in
  let st := run_loop (Loop rows (spawn [e; e; e] "aa")) [1; 0; 2; 1; 0; 1]%nat in
  db st = ∅
  /\ map t_pc (tasks st)
     = [PDone None Returns; PDone (Some (Invoice 1 9 100)) Returns; PDone None Returns]
  /\ map (fun t => existsb is_add_roles (t_done t)) (tasks st)
     = [false; true; false].
Proof. vm_compute. repeat split. Qed.

(** C1, as the specification has it, fails: the handler does not take the
    row in one store operation.  It reads the row with one database call
    and deletes it with another; when the store serves the lookup of a
    second confirmation between the two, both confirmations hold the row
    and both grant. *)
Lemma lookup_then_delete_is_not_atomic :
  let e := Discord true true Returns true true false Returns Returns in
  let rows : table := {[ "aa" := Invoice 1 9 100 ]} in
  let st := run_preemptive (Loop rows (spawn [e; e] "aa"))
              [0; 1; 0; 1; 0; 1; 0; 1; 0; 1; 0; 1]%nat in
  holders (tasks (run_preemptive (Loop rows (spawn [e; e] "aa")) [0; 1]%nat)) = 2%nat
  /\ map t_pc (tasks st)
     = [PDone (Some (Invoice 1 9 100)) Returns; PDone (Some (Invoice 1 9 100)) Returns]
  /\ map (fun t => existsb is_add_roles (t_done t)) (tasks st)
     = [true; true].
Proof. vm_compute. repeat split. Qed.

End Loop.

(* ===================================================================== *)
(** ** The listener's reconnection policy *)
(* ===================================================================== *)

Section Listener.

Implicit Types (s : lstate) (i : lin) (o : list lout).

(** Only a cancellation ends the coroutine. *)
Lemma listener_step_goes_on s i s' o :
  listener_step s i = Some (s', o) -> i <> Cancelled -> s' <> Ended.
Proof.
  destruct s, i; simpl; try discriminate; try done;
    unfold retry; intros [= <- <-]; done.
Qed.

Lemma listener_run_goes_on s ins s' o :
  s <> Ended -> ~ In Cancelled ins ->
  listener_run s ins = Some (s', o) -> s' <> Ended.
Proof.
  revert s o. induction ins as [| i ins IH]; intros s o N C; simpl.
  - by intros [= <- <-].
  - destruct (listener_step s i) as [[s1 o1]|] eqn:E; [| done].
    destruct (listener_run s1 ins) as [[s2 o2]|] eqn:R; [| done].
    intros [= <- <-]. apply (IH s1 o2); [| | done].
    + apply (listener_step_goes_on s i s1 o1); [done |]. intros ->. apply C. by left.
    + intros M. apply C. by right.
Qed.

(** Wherever it waits, the coroutine has a way on. *)
Lemma listener_never_stuck s :
  s <> Ended ->
  exists i s' o, i <> Cancelled /\ listener_step s i = Some (s', o).
Proof.
  destruct s; intros N; [| | | | | done].
  - exists Ready. by eexists _, _.
  - exists Established. by eexists _, _.
  - exists Closed. by eexists _, _.
  - exists Left. by eexists _, _.
  - exists Woke. by eexists _, _.
Qed.

(** X14: the coroutine sleeps only after a failed connect or a failed
    leave, and then for 15 seconds. *)
Lemma listener_sleeps s i s' o n :
  listener_step s i = Some (s', o) -> In (LSleep n) o ->
  n = 15 /\ s' = Sleeping
  /\ ((s = Connecting /\ i = ConnectFailed) \/ (s = Leaving /\ i = LeaveFailed)).
Proof.
  destruct s, i; simpl; try discriminate; unfold retry, on_message;
    intros [= <- <-]; simpl; try (intuition congruence).
  destruct (handle_message msg); simpl; intuition congruence.
Qed.

(** C7, as the code has it: the listener ends only when it is cancelled,
    and wherever it waits it can go on.  After a failed connect it logs,
    sleeps 15 seconds and connects again; after the feed was closed under
    an open connection it leaves the connection and connects again at
    once, without sleeping, unless leaving raises, in which case it sleeps
    15 seconds first. *)
Theorem listener_reconnects_forever :
  (forall s ins s' o, s <> Ended -> ~ In Cancelled ins ->
     listener_run s ins = Some (s', o) -> s' <> Ended)
  /\ (forall s, s <> Ended ->
        exists i s' o, i <> Cancelled /\ listener_step s i = Some (s', o))
  /\ listener_run Connecting [ConnectFailed; Woke]
     = Some (Connecting,
             [LLog ERROR "WebSocket connection error. Retrying in 15s...";
              LSleep 15; LConnect])
  /\ listener_run Receiving [Closed; Left]
     = Some (Connecting,
             [LLog WARNING "WebSocket closed, reconnecting..."; LConnect])
  /\ listener_run Receiving [Closed; LeaveFailed; Woke]
     = Some (Connecting,
             [LLog WARNING "WebSocket closed, reconnecting...";
              LLog ERROR "WebSocket connection error. Retrying in 15s...";
              LSleep 15; LConnect]).
Proof.
  split; [exact listener_run_goes_on |].
  split; [exact listener_never_stuck |].
  repeat split.
Qed.

(** C7, as the specification has it, fails: the feed is closed while the
    listener receives; the listener is connecting again without having
    slept. *)
Lemma closed_feed_reconnects_without_backoff :
  exists o, listener_run Receiving [Closed; Left] = Some (Connecting, o)
            /\ existsb is_sleep o = false.
Proof. eexists. split; reflexivity. Qed.

(** After a disconnection the listener delivers again: a confirmed
    payment received on the new connection is handed to the handler. *)
Lemma listener_resumes_delivery :
  let event : option json :=
    Some (JObj {[ "payment" :=
      JObj (<["paid" := JBool true]>
              (<["payment_hash" := JStr "aa"]> {[ "amount" := JInt 1000 ]})) ]}) in
  exists p o,
    listener_run Receiving [Closed; Left; Established; Text event]
    = Some (Receiving, o)
    /\ In (LSpawn (JStr "aa") p) o.
Proof. vm_compute. eexists _, _. split; [reflexivity |]. simpl. eauto 10. Qed.

End Listener.

(* ===================================================================== *)
(** ** Reading the configuration *)
(* ===================================================================== *)

Section Config.

Implicit Types (config : gmap string json) (k : string).

Lemma safe_config_lookup config k :
  filter (fun kv : string * json => kv.1 ∉ SECRETS) config !! k
  = if decide (k ∈ SECRETS) then None else config !! k.
Proof.
  apply option_eq. intros v. rewrite map_lookup_filter_Some. simpl.
  case_decide; naive_solver.
Qed.

Lemma configured_not_secret : "configured" ∉ SECRETS.
Proof. unfold SECRETS. rewrite !elem_of_cons, elem_of_nil. naive_solver. Qed.

(** C10: for a stored configuration object, the answer of the read
    endpoint has no entry under [discord_token] or [lnbits_api_key]; it
    has every other entry of the stored object unchanged (but for an entry
    named [configured], which the flag replaces), and nothing else but the
    flag [configured], which is [true] exactly when both secrets are
    present and non-empty in the stored object. *)
Theorem get_config_hides_secrets config :
  exists resp,
    get_config (Some (Some (JObj config))) = Some resp
    /\ resp !! "discord_token" = None
    /\ resp !! "lnbits_api_key" = None
    /\ (forall k, k ∉ SECRETS -> k <> "configured" -> resp !! k = config !! k)
    /\ (forall k, is_Some (resp !! k)
                  <-> (k = "configured"
                       \/ ((k ∉ SECRETS) /\ is_Some (config !! k))))
    /\ (exists b, resp !! "configured" = Some (JBool b)
                  /\ (b = true
                      <-> (exists t, config !! "discord_token" = Some t
                                     /\ Py.truthy t = true)
                          /\ (exists a, config !! "lnbits_api_key" = Some a
                                        /\ Py.truthy a = true))).
Proof.
  eexists. split; [reflexivity |].
  split; [| split; [| split; [| split]]].
  - rewrite lookup_insert_ne by done. rewrite safe_config_lookup.
    by rewrite decide_True by (unfold SECRETS; set_solver).
  - rewrite lookup_insert_ne by done. rewrite safe_config_lookup.
    by rewrite decide_True by (unfold SECRETS; set_solver).
  - intros k S C. rewrite lookup_insert_ne by done. rewrite safe_config_lookup.
    by rewrite decide_False.
  - intros k. destruct (decide (k = "configured")) as [-> | C].
    + rewrite lookup_insert_eq. split; eauto.
    + rewrite lookup_insert_ne by done. rewrite safe_config_lookup.
      case_decide; [| naive_solver].
      split; [intros S; by apply is_Some_None in S | naive_solver].
  - eexists. split; [apply lookup_insert_eq |].
    rewrite andb_true_iff, !truthy_get. naive_solver.
Qed.

(** X16: the answer depends on the secrets only through their being
    empty or not: two stored objects that differ in the secrets' values
    alone get the same answer. *)
Lemma get_config_noninterference config config' :
  (forall k, k ∉ SECRETS -> config !! k = config' !! k) ->
  Py.truthy (Py.get config "discord_token")
  = Py.truthy (Py.get config' "discord_token") ->
  Py.truthy (Py.get config "lnbits_api_key")
  = Py.truthy (Py.get config' "lnbits_api_key") ->
  get_config (Some (Some (JObj config))) = get_config (Some (Some (JObj config'))).
Proof.
  intros Same T A. simpl. rewrite T, A. do 2 f_equal.
  apply map_eq. intros k. rewrite !safe_config_lookup.
  case_decide; [done | by apply Same].
Qed.

(** Without a configuration file the answer is the flag alone. *)
Lemma get_config_without_file :
  get_config None = Some {[ "configured" := JBool false ]}.
Proof. reflexivity. Qed.

End Config.

(* ===================================================================== *)
(** ** The record store: lookups, removals, listing and sweeps *)
(* ===================================================================== *)

Section StoreOperations.

Implicit Types (rows : table) (h : string) (c : clock) (r : invoice).

(** X1: an insert answers [True] exactly when the hash was not stored.
    Afterwards the hash reads as the row that was there before, or else
    as the new row stamped with SQLite's current second; every other
    hash reads as before. *)
Theorem add_pending_invoice_lookup c h h' uid cid rows :
  let res := add_pending_invoice c h uid cid rows in
  (res.1 = true <-> rows !! h = None)
  /\ get_pending_invoice h' res.2
     = if decide (h' = h)
       then Some (default (Invoice uid cid (CURRENT_TIMESTAMP c)) (rows !! h))
       else rows !! h'.
Proof.
  unfold add_pending_invoice, get_pending_invoice.
  destruct (rows !! h) as [r|] eqn:E; simpl.
  - split; [done |]. case_decide as D; [by rewrite D | done].
  - split; [done |]. case_decide as D.
    + rewrite D. apply lookup_insert_eq.
    + by apply lookup_insert_ne.
Qed.

(** X2: a removal answers [True] exactly when the hash was stored.
    Afterwards the hash is not stored, every other hash reads as before,
    the number of rows has gone down by one exactly when the answer was
    [True], and a second removal answers [False]. *)
Theorem remove_pending_invoice_lookup h h' rows :
  let res := remove_pending_invoice h rows in
  (res.1 = true <-> is_Some (get_pending_invoice h rows))
  /\ get_pending_invoice h' res.2 = (if decide (h' = h) then None else rows !! h')
  /\ (get_pending_invoice_count res.2 + (if res.1 then 1 else 0)
      = get_pending_invoice_count rows)%nat
  /\ (remove_pending_invoice h res.2).1 = false.
Proof.
  unfold remove_pending_invoice, get_pending_invoice, get_pending_invoice_count.
  cbn [fst snd]. split; [apply bool_decide_eq_true |].
  split; [| split].
  - case_decide as D; [rewrite D; apply lookup_delete_eq | by apply lookup_delete_ne].
  - case_bool_decide as S.
    + rewrite (map_size_delete_Some h rows S).
      pose proof (map_size_ne_0_lookup_2 rows h S). lia.
    + rewrite map_size_delete_None; [lia |].
      by apply eq_None_not_Some.
  - apply bool_decide_eq_false. rewrite lookup_delete_eq. apply is_Some_None.
Qed.

(** X3: removing a hash right after its successful insert gives back the
    table as it was before the insert. *)
Theorem add_then_remove_restores c h uid cid rows :
  rows !! h = None ->
  remove_pending_invoice h (add_pending_invoice c h uid cid rows).2 = (true, rows).
Proof.
  intros E. rewrite (add_absent _ _ _ _ _ E).
  unfold remove_pending_invoice. cbn [snd].
  rewrite lookup_insert_eq, delete_insert_id by done.
  rewrite bool_decide_eq_true_2 by eauto. reflexivity.
Qed.

Lemma add_then_remove_restores_witness :
  let rows : table := {[ "aa" := Invoice 7 9 100 ]} in
  let c := Clock 5000000 0 in
  remove_pending_invoice "bb" (add_pending_invoice c "bb" 1 2 rows).2 = (true, rows).
Proof.
  intros rows c. apply (add_then_remove_restores c "bb" 1 2 rows). reflexivity.
Defined.

(** X4: the listing holds exactly the stored rows, each hash once, and
    is as long as the count says. *)
Theorem get_all_pending_invoices_complete rows :
  (forall h r, (h, r) ∈ get_all_pending_invoices rows
               <-> get_pending_invoice h rows = Some r)
  /\ NoDup (get_all_pending_invoices rows).*1
  /\ length (get_all_pending_invoices rows) = get_pending_invoice_count rows.
Proof.
  unfold get_all_pending_invoices, get_pending_invoice, get_pending_invoice_count.
  split; [| split].
  - intros h r. apply elem_of_map_to_list.
  - apply NoDup_fst_map_to_list.
  - apply length_map_to_list.
Qed.

End StoreOperations.

Section Sweeps.

Implicit Types (rows : table) (h : string) (c : clock) (r : invoice).

Lemma expiry_in_utc_witness :
  let c := Clock 1700000000500000 0 in
  let rows : table := ∅ in
  let d := 1800 * MICROS in
  let stored := (add_pending_invoice c "aa" 1 2 rows).2 in
  let r := Invoice 1 2 (CURRENT_TIMESTAMP c) in
  ("aa", r) ∈ get_all_pending_invoices stored
  /\ (d + MICROS <= EXPIRY ->
      (cleanup_expired_invoices (later c d) stored).2 !! "aa" = Some r)
  /\ (EXPIRY < d ->
      (cleanup_expired_invoices (later c d) stored).2 !! "aa" = None).
Proof.
  intros c rows d.
  apply (expiry_in_utc c "aa" 1 2 rows d); [reflexivity | reflexivity |].
  unfold d, MICROS. lia.
Defined.

(** X5: a sweep keeps a row exactly when its stored second, taken as
    microseconds, is not below the local wall clock minus one hour; kept
    rows are unchanged, no row appears, and the answer is the number of
    rows that went away. *)
Theorem cleanup_removes_before_threshold c rows :
  let res := cleanup_expired_invoices c rows in
  let expiry_time := datetime_now c - EXPIRY in
  (forall h, get_pending_invoice h res.2
             = match rows !! h with
               | Some r => if decide (created_at r * MICROS < expiry_time)
                           then None else Some r
               | None => None
               end)
  /\ res.1 = Z.of_nat (get_pending_invoice_count rows)
             - Z.of_nat (get_pending_invoice_count res.2)
  /\ 0 <= res.1.
Proof.
  intros res expiry_time. subst res expiry_time.
  split; [| split; [apply cleanup_count |]].
  - intros h. unfold get_pending_invoice. apply option_eq. intros r.
    rewrite cleanup_lookup.
    destruct (rows !! h) as [r'|]; [| naive_solver].
    case_decide; split.
    + intros [[= ->] L]. lia.
    + done.
    + by intros [E _].
    + intros [= ->]. split; [done | lia].
  - unfold cleanup_expired_invoices. cbn [fst]. lia.
Qed.

(** X7: a sweep followed by a later sweep leaves the table that the
    later sweep alone would leave, and the two answers add up to the
    answer of the later sweep alone; in particular a second sweep at the
    same instant removes nothing. *)
Theorem cleanup_twice c d rows :
  0 <= d ->
  let first := cleanup_expired_invoices c rows in
  let second := cleanup_expired_invoices (later c d) first.2 in
  let alone := cleanup_expired_invoices (later c d) rows in
  second.2 = alone.2
  /\ first.1 + second.1 = alone.1
  /\ (d = 0 -> second.1 = 0).
Proof.
  intros D. cbv zeta.
  assert (forall e, 0 <= e ->
            (cleanup_expired_invoices (later c e) (cleanup_expired_invoices c rows).2).2
            = (cleanup_expired_invoices (later c e) rows).2) as T.
  { intros e E. apply map_eq. intros h. apply option_eq. intros r.
    rewrite !cleanup_lookup.
    unfold datetime_now, later. cbn [utc_micros utc_offset].
    split; [intros [[F L] L'] | intros [F L]]; repeat split; try done; lia. }
  pose proof (cleanup_count c rows) as C1.
  pose proof (cleanup_count (later c d) (cleanup_expired_invoices c rows).2) as C2.
  pose proof (cleanup_count (later c d) rows) as C3.
  rewrite (T d D) in C2.
  split; [by apply T | split; [lia |]].
  intros ->.
  assert ((cleanup_expired_invoices (later c 0) rows).2
          = (cleanup_expired_invoices c rows).2) as I; [| rewrite I in C2; lia].
  apply map_eq. intros h. apply option_eq. intros r.
  rewrite !cleanup_lookup.
  unfold datetime_now, later. cbn [utc_micros utc_offset].
  split; intros [F L]; (split; [done | lia]).
Qed.

Lemma cleanup_twice_witness :
  let c := Clock 1700003700000000 3600 in
  let rows : table :=
    <["aa" := Invoice 1 2 1700000000]> {[ "bb" := Invoice 3 4 1700003000 ]} in
  let first := cleanup_expired_invoices c rows in
  let second := cleanup_expired_invoices (later c 5000000000) first.2 in
  let alone := cleanup_expired_invoices (later c 5000000000) rows in
  second.2 = alone.2
  /\ first.1 + second.1 = alone.1
  /\ (5000000000 = 0 -> second.1 = 0).
Proof.
  intros c rows. apply (cleanup_twice c 5000000000 rows). lia.
Defined.

End Sweeps.

(* ===================================================================== *)
(** ** The handler: failures and calls *)
(* ===================================================================== *)

Section HandlerCalls.

Implicit Types (rows : table) (h : string) (e : discord) (r : invoice).

#[local] Ltac by_cases e :=
  destruct e as [[] [] [] [] [] [] [] []]; simpl in *.


(** Whom the calls of the handler are about. *)
Lemma handler_calls_target e h rows a uid :
  In a (assign_role_after_payment e h rows).1.2 -> target a = Some uid ->
  exists r, rows !! h = Some r /\ uid = user_id r.
Proof.
  unfold assign_role_after_payment, get_pending_invoice, grant.
  destruct (rows !! h) as [r|]; simpl.
  - intros M T. exists r. split; [done |]. revert M.
    by_cases e;
      unfold log_processing, log_found, log_no_guild, log_fetch_error,
        log_no_role, log_no_channel, log_assigned, log_assign_error;
      simpl; intuition (subst; simpl in T; congruence).
  - intros [<- | [<- | []]]; discriminate.
Qed.

(** X9: every call the handler makes to Discord is about the member
    stored in the row it took, so it makes none when it finds no row; it
    fetches the member, adds the role and sends to the channel at most
    once each, and it sends only when the invoice channel is resolved. *)
Theorem handler_calls e h rows :
  let acts := (assign_role_after_payment e h rows).1.2 in
  (forall a uid, In a acts -> target a = Some uid ->
                 exists r, rows !! h = Some r /\ uid = user_id r)
  /\ (length (List.filter is_fetch acts) <= 1)%nat
  /\ (length (List.filter is_add_roles acts) <= 1)%nat
  /\ (length (List.filter is_send acts) <= 1)%nat
  /\ (existsb is_send acts = true -> channel_found e = true).
Proof.
  intros acts. split; [apply handler_calls_target |]. subst acts.
  unfold assign_role_after_payment, get_pending_invoice, grant.
  destruct (rows !! h) as [r|]; simpl.
  - by_cases e; repeat split; simpl; try lia; done.
  - repeat split; simpl; try lia; done.
Qed.

End HandlerCalls.

(* ===================================================================== *)
(** ** The slash command: replies, posts and stored rows *)
(* ===================================================================== *)

Section CommandPaths.

Implicit Types (rows : table) (c : clock) (i : interaction) (CHANNEL_ID : Z).






End CommandPaths.

(* ===================================================================== *)
(** ** From the request to the grant *)
(* ===================================================================== *)

Section EndToEnd.

Implicit Types (rows : table) (c : clock) (i : interaction) (e : discord).

(** X10: a command that LNbits answers with 201 and a fresh hash stores
    the hash for the invoking user and the configured channel.  A
    confirmation for that hash then takes the row, leaving the table as
    it was before the command; every call it makes to Discord is about
    the invoking user; and a second confirmation for the hash finds
    nothing. *)
Theorem request_then_confirmation CHANNEL_ID c i e e' rows text inv pr k :
  i_channel_found i = true ->
  i_post i = Response 201 text (Some (JObj inv)) ->
  inv !! "bolt11" = Some pr -> Py.truthy pr = true ->
  inv !! "payment_hash" = Some (JStr k) -> k <> "" ->
  rows !! k = None ->
  exists rows1 acts1,
    dynamic_command CHANNEL_ID c i rows = Some (rows1, acts1, Returns)
    /\ rows1 !! k = Some (Invoice (i_user i) CHANNEL_ID (CURRENT_TIMESTAMP c))
    /\ (assign_role_after_payment e k rows1).1.1 = rows
    /\ (forall a uid, In a (assign_role_after_payment e k rows1).1.2 ->
                      target a = Some uid -> uid = i_user i)
    /\ assign_role_after_payment e' k (assign_role_after_payment e k rows1).1.1
       = (rows, [log_processing; log_not_found], Returns).
Proof.
  intros F P B T H N E.
  exists (<[k := Invoice (i_user i) CHANNEL_ID (CURRENT_TIMESTAMP c)]> rows).
  eexists. split; [| split; [apply lookup_insert_eq | ]].
  - unfold dynamic_command. rewrite F, P. simpl.
    unfold Py.get. rewrite B, H. simpl. rewrite T. simpl.
    destruct (String.eqb_spec k ""); [done |]. simpl.
    by rewrite (add_absent _ _ _ _ _ E).
  - assert ((assign_role_after_payment e k
               (<[k := Invoice (i_user i) CHANNEL_ID (CURRENT_TIMESTAMP c)]> rows)).1.1
            = rows) as R.
    { rewrite assign_role_table, lookup_insert_eq. by apply delete_insert_id. }
    split; [exact R | split].
    + intros a uid M Ta.
      destruct (handler_calls_target e k _ a uid M Ta) as (r & L & ->).
      rewrite lookup_insert_eq in L. by injection L as <-.
    + rewrite R. unfold assign_role_after_payment, get_pending_invoice.
      by rewrite E.
Qed.

Lemma request_then_confirmation_witness :
  let inv : gmap string json :=
    <["bolt11" := JStr "lnbc1"]> {[ "payment_hash" := JStr "aa" ]} in
  let i := Interaction 2 true (Response 201 "" (Some (JObj inv))) Returns Returns in
  let c := Clock 5000000 0 in
  let e := Discord true true Returns true true false Returns Returns in
  let rows : table := {[ "zz" := Invoice 7 9 100 ]} in
  exists rows1 acts1,
    dynamic_command 9 c i rows = Some (rows1, acts1, Returns)
    /\ rows1 !! "aa" = Some (Invoice (i_user i) 9 (CURRENT_TIMESTAMP c))
    /\ (assign_role_after_payment e "aa" rows1).1.1 = rows
    /\ (forall a uid, In a (assign_role_after_payment e "aa" rows1).1.2 ->
                      target a = Some uid -> uid = i_user i)
    /\ assign_role_after_payment e "aa" (assign_role_after_payment e "aa" rows1).1.1
       = (rows, [log_processing; log_not_found], Returns).
Proof.
  intros inv i c e rows.
  apply (request_then_confirmation 9 c i e e rows "" inv (JStr "lnbc1") "aa");
    try reflexivity.
  discriminate.
Defined.

(** X15: on a UTC host, a confirmation that arrives after a sweep run
    more than one hour after the insert finds nothing: it makes no call to
    Discord and leaves the swept table as it is. *)
Theorem late_confirmation_not_granted c d e h uid cid rows :
  utc_offset c = 0 -> rows !! h = None -> EXPIRY < d ->
  let stored := (add_pending_invoice c h uid cid rows).2 in
  let swept := (cleanup_expired_invoices (later c d) stored).2 in
  assign_role_after_payment e h swept
  = (swept, [log_processing; log_not_found], Returns).
Proof.
  intros U E D stored swept.
  assert (swept !! h = None) as N.
  { subst swept stored. rewrite (add_absent _ _ _ _ _ E). cbn [snd].
    apply eq_None_not_Some. intros [r F].
    apply cleanup_lookup in F as [F G].
    rewrite lookup_insert_eq in F. injection F as <-.
    pose proof (CURRENT_TIMESTAMP_bounds c) as B.
    unfold datetime_now, later, EXPIRY, timedelta_hours, INVOICE_EXPIRY_HOURS,
      MICROS in *. simpl in *. lia. }
  unfold assign_role_after_payment, get_pending_invoice. by rewrite N.
Qed.

Lemma late_confirmation_not_granted_witness :
  let c := Clock 1700000000500000 0 in
  let e := Discord true true Returns true true false Returns Returns in
  let stored := (add_pending_invoice c "aa" 1 2 ∅).2 in
  let swept := (cleanup_expired_invoices (later c 3600000001) stored).2 in
  assign_role_after_payment e "aa" swept
  = (swept, [log_processing; log_not_found], Returns).
Proof.
  intros c e.
  apply (late_confirmation_not_granted c 3600000001 e "aa" 1 2 ∅);
    [reflexivity | reflexivity | vm_compute; reflexivity].
Defined.

End EndToEnd.

(* ===================================================================== *)
(** ** The listener on a run of texts *)
(* ===================================================================== *)

Section ListenerTexts.

Lemma spawned_app o1 o2 : spawned (o1 ++ o2) = spawned o1 ++ spawned o2.
Proof.
  induction o1 as [| [] o1 IH]; simpl; [done | | | |]; by rewrite ?IH.
Qed.

Lemma existsb_is_sleep_on_message msg :
  existsb is_sleep (on_message msg) = false
  /\ existsb is_connect (on_message msg) = false.
Proof. unfold on_message. by destruct (handle_message msg). Qed.

(** X13: whatever texts arrive on an open connection, well formed or
    not, the listener stays on that connection: it neither ends nor
    reconnects nor sleeps, and the handlers it starts are exactly the
    confirmations among the texts, in the order of arrival. *)
Theorem listener_survives_texts (msgs : list (option json)) :
  exists o,
    listener_run Receiving (map Text msgs) = Some (Receiving, o)
    /\ spawned o = dispatched msgs
    /\ existsb is_sleep o = false
    /\ existsb is_connect o = false.
Proof.
  induction msgs as [| msg msgs (o & R & S & Z & C)]; simpl.
  - by exists [].
  - rewrite R. eexists. split; [reflexivity |].
    destruct (existsb_is_sleep_on_message msg) as [Zm Cm].
    simpl. rewrite spawned_app, !existsb_app, S, Z, C, Zm, Cm.
    repeat split. unfold on_message.
    by destruct (handle_message msg).
Qed.

End ListenerTexts.

(* ===================================================================== *)
(** ** Instances *)
(* ===================================================================== *)

Section Instances.

Lemma listener_sleeps_witness :
  15 = 15 /\ Sleeping = Sleeping
  /\ ((Connecting = Connecting /\ ConnectFailed = ConnectFailed)
      \/ (Connecting = Leaving /\ ConnectFailed = LeaveFailed)).
Proof.
  apply (listener_sleeps Connecting ConnectFailed Sleeping
           [LLog ERROR "WebSocket connection error. Retrying in 15s..."; LSleep 15] 15).
  - reflexivity.
  - right. left. reflexivity.
Defined.

Lemma get_config_noninterference_witness :
  let rest : gmap string json := {[ "price" := JStr "5" ]} in
  let config := <["discord_token" := JStr "abc"]> (<["lnbits_api_key" := JStr "k1"]> rest) in
  let config' := <["discord_token" := JStr "xyz"]> (<["lnbits_api_key" := JStr "k2"]> rest) in
  get_config (Some (Some (JObj config))) = get_config (Some (Some (JObj config'))).
Proof.
  intros rest config config'.
  apply (get_config_noninterference config config'); [| reflexivity | reflexivity].
  intros k N. unfold SECRETS in N. rewrite !not_elem_of_cons in N.
  destruct N as (N1 & N2 & _). subst config config'.
  rewrite !lookup_insert_ne by done. reflexivity.
Defined.

End Instances.

(* ===================================================================== *)
(** ** The address of the event feed *)
(* ===================================================================== *)

Section FeedAddress.

Implicit Types (s t p : string) (ch a : ascii).

#[local] Arguments String.append : simpl nomatch.

Lemma append_empty_r s : s +:+ "" = s.
Proof. induction s as [| a s IH]; simpl; [done | by rewrite IH]. Qed.

Lemma prefix_append p t : String.prefix p (p +:+ t) = true.
Proof.
  induction p as [| a p IH]; simpl; [by destruct t |].
  by destruct (ascii_dec a a).
Qed.

Lemma prefix_inv p s : String.prefix p s = true -> exists t, s = p +:+ t.
Proof.
  revert s. induction p as [| a p IH]; intros s; simpl.
  - intros _. by exists s.
  - destruct s as [| b s]; [by destruct p |].
    simpl. destruct (ascii_dec a b) as [-> |]; [| done].
    intros [t ->]%IH. by exists t.
Qed.

Lemma drop_append p t : Str.drop (String.length p) (p +:+ t) = t.
Proof. induction p as [| a p IH]; simpl; [by destruct t | done]. Qed.

Lemma replace_first_prefix old new t :
  Str.replace_first old new (old +:+ t) = new +:+ t.
Proof.
  pose proof (prefix_append old t) as P.
  destruct (old +:+ t) as [| a s] eqn:E.
  - destruct old; [| discriminate E]. simpl in E. subst t.
    simpl. by rewrite append_empty_r.
  - cbn [Str.replace_first]. rewrite P, <- E. by rewrite drop_append.
Qed.

Lemma rstrip_append_ch ch s :
  Str.rstrip ch (s +:+ String ch "") = Str.rstrip ch s.
Proof.
  induction s as [| a s IH]; simpl.
  - by rewrite Ascii.eqb_refl.
  - by rewrite IH.
Qed.

Lemma rstrip_empty ch s : Str.rstrip ch s = "" -> Str.rstrip ch (String ch s) = "".
Proof. intros E. simpl. by rewrite E, Ascii.eqb_refl. Qed.

(** What is left after [rstrip] does not end in the stripped
    character. *)
Lemma rstrip_no_trailing ch s t : Str.rstrip ch s <> t +:+ String ch "".
Proof.
  revert t. induction s as [| a s IH]; intros t; simpl.
  - by destruct t.
  - destruct (String.eqb_spec (Str.rstrip ch s) "") as [E | N]; simpl.
    + destruct (Ascii.eqb_spec a ch) as [-> | D]; [by destruct t |].
      rewrite E. destruct t as [| b [| ? ?]]; simpl; congruence.
    + destruct t as [| b t]; simpl.
      * intros [= -> E]. done.
      * intros [= -> E]. by apply (IH t).
Qed.

(** X17: the bot derives an address for the event feed exactly when the
    API key is not empty and the LNbits address, its trailing slashes
    removed, begins with [https://] or [http://]; the address is then the
    same with [wss://], respectively [ws://], in place of the scheme,
    followed by [/api/v1/ws/] and the key.  What stands between the scheme
    and [/api/v1/ws/] does not end in a slash. *)
Theorem websocket_url_characterised (url key w : string) :
  websocket_url url key = Some w
  <-> key <> ""
      /\ exists rest,
           (forall t, rest <> t +:+ "/")
           /\ ((Str.rstrip "/" url = "https://" +:+ rest
                /\ w = "wss://" +:+ rest +:+ "/api/v1/ws/" +:+ key)
               \/ (Str.rstrip "/" url = "http://" +:+ rest
                   /\ w = "ws://" +:+ rest +:+ "/api/v1/ws/" +:+ key)).
Proof.
  unfold websocket_url, Str.startswith. split.
  - destruct (String.eqb_spec url "") as [| U]; [done |].
    destruct (String.eqb_spec key "") as [| K]; [done |]. simpl.
    destruct (String.prefix "https://" _) eqn:P1.
    + apply prefix_inv in P1 as [rest E]. rewrite E, replace_first_prefix.
      intros [= <-]. split; [done |]. exists rest. split; [| by left].
      intros t ->. apply (rstrip_no_trailing "/" url ("https://" +:+ t)).
      by rewrite E.
    + destruct (String.prefix "http://" _) eqn:P2; [| done].
      apply prefix_inv in P2 as [rest E]. rewrite E, replace_first_prefix.
      intros [= <-]. split; [done |]. exists rest. split; [| by right].
      intros t ->. apply (rstrip_no_trailing "/" url ("http://" +:+ t)).
      by rewrite E.
  - intros (K & rest & _ & [[E ->] | [E ->]]).
    + destruct (String.eqb_spec url "") as [-> | U]; [by destruct rest |].
      destruct (String.eqb_spec key "") as [| _]; [done |]. simpl.
      rewrite E, prefix_append, replace_first_prefix. done.
    + destruct (String.eqb_spec url "") as [-> | U]; [by destruct rest |].
      destruct (String.eqb_spec key "") as [| _]; [done |]. simpl.
      rewrite E.
      assert (String.prefix "https://" ("http://" +:+ rest) = false) as -> by done.
      rewrite prefix_append, replace_first_prefix. done.
Qed.

(** X18: one more slash at the end of the LNbits address changes
    nothing. *)
Theorem websocket_url_trailing_slash (url key : string) :
  websocket_url (url +:+ "/") key = websocket_url url key.
Proof.
  unfold websocket_url. rewrite rstrip_append_ch.
  destruct (String.eqb_spec (url +:+ "/") "") as [E | _]; [by destruct url |].
  destruct (String.eqb_spec url "") as [-> | _]; [| done].
  simpl. by destruct (String.eqb key "").
Qed.

(** An address that is only a scheme is refused, although it begins
    with the scheme. *)
Lemma websocket_url_scheme_alone :
  websocket_url "https://" "key" = None
  /\ websocket_url "https://lnbits.local//" "key"
     = Some "wss://lnbits.local/api/v1/ws/key".
Proof. split; reflexivity. Qed.

End FeedAddress.

(* ===================================================================== *)
(** ** The server: logs and connection test *)
(* ===================================================================== *)

Section ServerProbes.

(** X19: the log endpoint answers with the last lines of the log file,
    in their order: all of them when there are at most 100, else the last
    100; without a log file it answers with no lines. *)
Theorem get_logs_recent (lines : list string) :
  get_logs None = Some []
  /\ exists logs,
       get_logs (Some (Some lines)) = Some logs
       /\ logs `suffix_of` lines
       /\ length logs = Nat.min 100 (length lines).
Proof.
  split; [done |]. eexists. split; [reflexivity |]. split.
  - apply suffix_drop.
  - rewrite length_drop. lia.
Qed.







End ServerProbes.

(* ===================================================================== *)
(** ** Validating and saving the configuration *)
(* ===================================================================== *)

Section ConfigValidation.

Variable int_of_str : string -> option Z.
Variable repr : json -> string.
Variable str_lower : string -> string.

Implicit Types (d : gmap string json) (data v : json) (field f k : string).

(** The first element a search stops at, and what came before it. *)
Lemma find_first {A} (test : A -> bool) (l : list A) :
  (exists x, In x l /\ test x = true) ->
  exists g pre post,
    l = pre ++ g :: post
    /\ (forall x, In x pre -> test x = false)
    /\ test g = true
    /\ List.find test l = Some g.
Proof.
  induction l as [| y l IH]; intros (x & M & T); [done |].
  destruct (test y) eqn:Y.
  - exists y, [], l. simpl. rewrite Y. by repeat split.
  - destruct IH as (g & pre & post & -> & P & G & F).
    { destruct M as [-> | M]; [congruence | eauto]. }
    exists g, (y :: pre), post. simpl. rewrite Y.
    repeat split; [| done | done].
    intros z [<- | Z]; [done | by apply P].
Qed.

Lemma check_ids_passes d fields :
  check_ids int_of_str d fields = None ->
  forall f, In f fields -> exists z, int_ int_of_str (Py.get d f) = IntOk z /\ 0 < z.
Proof.
  induction fields as [| g fields IH]; simpl; [done |].
  destruct (int_ int_of_str (Py.get d g)) as [z | |] eqn:E; try done.
  destruct (Z.leb_spec z 0); [done |].
  intros C f [<- | M]; [eauto | by apply IH].
Qed.

Lemma check_ids_refuses d fields w :
  check_ids int_of_str d fields = Some w -> w <> Valid.
Proof.
  induction fields as [| g fields IH]; simpl; [done |].
  destruct (int_ int_of_str (Py.get d g)) as [z | |]; try (by intros [= <-]).
  destruct (z <=? 0); [by intros [= <-] | done].
Qed.

Lemma check_price_refuses v w :
  check_price int_of_str v = Some w -> w <> Valid.
Proof.
  unfold check_price.
  destruct (int_ int_of_str v) as [p | |]; try (by intros [= <-]).
  destruct (p <=? 0); [by intros [= <-] |].
  destruct (MAX_PRICE <? p); [by intros [= <-] | done].
Qed.

Lemma check_price_passes v :
  check_price int_of_str v = None ->
  exists p, int_ int_of_str v = IntOk p /\ 0 < p <= MAX_PRICE.
Proof.
  unfold check_price. destruct (int_ int_of_str v) as [p | |]; try done.
  destruct (Z.leb_spec p 0); [done |].
  destruct (Z.ltb_spec MAX_PRICE p); [done |]. eauto with lia.
Qed.

(** X21: a request body that [validate_config] accepts is an object in
    which all eight required fields are present and truthy, the command
    name, lowered, consists of 1 to 32 characters of [a-z0-9_] (or of that
    followed by one newline), the three ids convert to integers above
    zero, the price converts to an integer above zero and not above
    2 100 000 000 000 000, the invoice message has a length of at most
    1000, and the LNbits address is a string that begins with [http://] or
    [https://]. *)
Theorem validate_config_sound data :
  validate_config int_of_str repr str_lower data = Valid ->
  exists d,
    data = JObj d
    /\ (forall f, In f REQUIRED_FIELDS -> Py.truthy (Py.get d f) = true)
    /\ command_name_re (str_lower (str_ repr (Py.get d "command_name"))) = true
    /\ (forall f, In f ID_FIELDS -> exists z, int_ int_of_str (Py.get d f) = IntOk z /\ 0 < z)
    /\ (exists p, int_ int_of_str (Py.get d "price") = IntOk p /\ 0 < p <= MAX_PRICE)
    /\ (exists n, len_ (Py.get_default d "invoicemessage" (JStr "")) = Some n
                  /\ (n <= 1000)%nat)
    /\ (exists u, d !! "lnbits_url" = Some (JStr u)
                  /\ (Str.startswith "http://" u = true
                      \/ Str.startswith "https://" u = true)).
Proof.
  destruct data as [| | | | s | l | d]; unfold validate_config; try done.
  - by destruct (contains _ _).
  - by destruct (existsb _ _).
  - unfold validate_fields.
    destruct (List.find _ REQUIRED_FIELDS) eqn:F; [done |].
    assert (forall f, In f REQUIRED_FIELDS -> Py.truthy (Py.get d f) = true) as R.
    { intros f M. apply (find_none _ _ F) in M. by apply negb_false_iff in M. }
    assert (Py.get_default d "command_name" (JStr "") = Py.get d "command_name") as ->.
    { pose proof (R "command_name" ltac:(simpl; tauto)) as T.
      unfold Py.get_default, Py.get in *. by destruct (d !! "command_name"). }
    destruct (command_name_re _) eqn:N; cbn [negb]; [| done].
    destruct (check_ids int_of_str d ID_FIELDS) as [w|] eqn:I;
      [intros ->; by apply check_ids_refuses in I |].
    destruct (check_price int_of_str _) as [w|] eqn:P;
      [intros ->; by apply check_price_refuses in P |].
    destruct (len_ _) as [n|] eqn:L; [| done].
    destruct (Nat.ltb_spec 1000 n); [done |].
    unfold Py.get_default at 1.
    destruct (d !! "lnbits_url") as [[| | | | u | |]|] eqn:U;
      cbv beta iota delta [default from_option id]; try done.
    destruct (_ || _) eqn:S; [| done]. intros _.
    exists d. split; [done |]. split; [done |]. split; [done |].
    split; [by apply check_ids_passes |].
    split; [by apply check_price_passes |].
    split; [exists n; split; [done | lia] |].
    exists u. split; [done |]. by apply orb_true_iff.
Qed.

(** X22: when a required field is missing or falsy, the request is
    refused with the message that names the first such field in the order
    of the list of required fields, whatever else is wrong with it. *)
Theorem validate_config_first_missing d :
  (exists f, In f REQUIRED_FIELDS /\ Py.truthy (Py.get d f) = false) ->
  exists g pre post,
    REQUIRED_FIELDS = pre ++ g :: post
    /\ (forall f, In f pre -> Py.truthy (Py.get d f) = true)
    /\ Py.truthy (Py.get d g) = false
    /\ validate_config int_of_str repr str_lower (JObj d) = Invalid ("Missing required field: " +:+ g).
Proof.
  intros (f & M & T).
  destruct (find_first (fun field => negb (Py.truthy (Py.get d field)))
              REQUIRED_FIELDS) as (g & pre & post & E & P & G & F).
  { exists f. split; [done |]. by rewrite T. }
  exists g, pre, post. split; [done |]. split.
  - intros x X. apply P in X. by apply negb_false_iff in X.
  - split; [by apply negb_true_iff in G |].
    unfold validate_config, validate_fields. by rewrite F.
Qed.

(** An accepted object holds both secrets. *)
Lemma validate_config_accepts d :
  validate_config int_of_str repr str_lower (JObj d) = Valid ->
  Py.truthy (Py.get d "discord_token") = true
  /\ Py.truthy (Py.get d "lnbits_api_key") = true.
Proof.
  unfold validate_config, validate_fields.
  destruct (List.find _ REQUIRED_FIELDS) eqn:F; [done |]. intros _.
  split.
  - pose proof (find_none _ _ F "discord_token" ltac:(simpl; tauto)) as T.
    by apply negb_false_iff in T.
  - pose proof (find_none _ _ F "lnbits_api_key" ltac:(simpl; tauto)) as T.
    by apply negb_false_iff in T.
Qed.

(** What the normalisation leaves under each key. *)
Lemma normalize_lookup d k :
  normalize repr d !! k
  = if decide (k ∈ NUMERIC_FIELDS) then Some (JStr (str_ repr (Py.get d k)))
    else d !! k.
Proof.
  unfold normalize, NUMERIC_FIELDS. cbn [foldl]. unfold Py.get.
  rewrite !lookup_insert. 
  repeat (rewrite (decide_False (P := _ = _)) by done).
  repeat case_decide; subst; try done;
    repeat match goal with
           | H : _ ∈ _ |- _ => rewrite !elem_of_cons, elem_of_nil in H
           | H : ~ _ ∈ _ |- _ => rewrite !elem_of_cons, elem_of_nil in H
           end; naive_solver.
Qed.

Lemma setdefault_lookup d k v k' :
  setdefault d k v !! k'
  = if decide (k' = k) then Some (default v (d !! k)) else d !! k'.
Proof.
  unfold setdefault. destruct (d !! k) eqn:E; case_decide; subst; simpl; try done.
  - apply lookup_insert_eq.
  - by apply lookup_insert_ne.
Qed.

(** X23: the configuration file is written only for a request that
    [validate_config] accepts: a request that cannot be decoded, that is
    refused or that makes the validation raise leaves the file as it was
    and is answered with 500, 400 and the validation's message, or 500;
    the answer is 200 exactly when the request is accepted and the write
    succeeds. *)
Theorem save_config_writes_only_valid (req : option json) (write : written)
    (file : option (option json)) :
  let res := save_config int_of_str repr str_lower req write file in
  (res.1 = Saved
     <-> exists data, req = Some data
           /\ validate_config int_of_str repr str_lower data = Valid
           /\ write = Written)
  /\ (forall m, res.1 = BadRequest m
        <-> exists data, req = Some data
              /\ validate_config int_of_str repr str_lower data = Invalid m)
  /\ ((req = None
       \/ exists data, req = Some data
             /\ validate_config int_of_str repr str_lower data <> Valid) ->
      res.2 = file /\ res.1 <> Saved).
Proof.
  unfold save_config. destruct req as [data|]; simpl.
  - destruct (validate_config int_of_str repr str_lower data) eqn:V; simpl.
    + destruct data as [| | | | ? | ? | d]; try discriminate V.
      * unfold validate_config in V. by destruct (contains _ _).
      * unfold validate_config in V. by destruct (existsb _ _).
      * destruct write as [| remains]; simpl.
        -- split; [split; [eauto | done] |]. split.
           ++ intros m. split; [done | by intros (? & [= <-] & ?); congruence].
           ++ intros [? | (? & [= <-] & ?)]; done.
        -- split; [split; [done | by intros (? & _ & _ & ?)] |]. split.
           ++ intros m. split; [done | by intros (? & [= <-] & ?); congruence].
           ++ intros [? | (? & [= <-] & ?)]; done.
    + split; [split; [done | by intros (? & [= <-] & ? & _); congruence] |]. split.
      * intros m. split.
        -- intros [= <-]. eauto.
        -- intros (? & [= <-] & ?). congruence.
      * done.
    + split; [split; [done | by intros (? & [= <-] & ? & _); congruence] |]. split.
      * intros m. split; [done | by intros (? & [= <-] & ?); congruence].
      * done.
  - split; [split; [done | by intros (? & ? & _)] |]. split.
    + intros m. split; [done | by intros (? & ? & _)].
    + done.
Qed.

(** X24: after a successful save, reading the configuration answers with
    [configured] set, without the two secrets, with the four numeric fields
    as the strings [str] makes of what was sent, with the invoice message
    that was sent or else the default one, and with every other field as
    it was sent. *)
Theorem save_then_get d (file : option (option json)) :
  validate_config int_of_str repr str_lower (JObj d) = Valid ->
  let res := save_config int_of_str repr str_lower (Some (JObj d)) Written file in
  res.1 = Saved
  /\ exists resp,
       get_config res.2 = Some resp
       /\ resp !! "configured" = Some (JBool true)
       /\ resp !! "discord_token" = None
       /\ resp !! "lnbits_api_key" = None
       /\ (forall f, In f NUMERIC_FIELDS ->
            resp !! f = Some (JStr (str_ repr (Py.get d f))))
       /\ resp !! "invoicemessage"
          = Some (default (JStr DEFAULT_INVOICE_MESSAGE) (d !! "invoicemessage"))
       /\ (forall k, k ∉ SECRETS -> k ∉ NUMERIC_FIELDS -> k <> "configured" ->
                     k <> "invoicemessage" -> resp !! k = d !! k).
Proof.
  intros V. unfold save_config. rewrite V. cbn [fst snd].
  split; [done |]. eexists. split; [reflexivity |].
  destruct (validate_config_accepts d V) as (Tok & Key).
  assert (forall k, k ∉ NUMERIC_FIELDS -> k <> "invoicemessage" ->
            Py.get (normalize repr
                      (setdefault d "invoicemessage" (JStr DEFAULT_INVOICE_MESSAGE))) k
            = Py.get d k) as Same.
  { intros k N M. unfold Py.get.
    by rewrite normalize_lookup, decide_False, setdefault_lookup, decide_False. }
  split; [| split; [| split; [| split; [| split]]]].
  - rewrite lookup_insert_eq, !Same, Tok, Key by (done || unfold NUMERIC_FIELDS; set_solver).
    done.
  - rewrite lookup_insert_ne, safe_config_lookup by done.
    by rewrite decide_True by (unfold SECRETS; set_solver).
  - rewrite lookup_insert_ne, safe_config_lookup by done.
    by rewrite decide_True by (unfold SECRETS; set_solver).
  - intros f M. apply list_elem_of_In in M.
    assert (f <> "configured" /\ (f ∉ SECRETS) /\ f <> "invoicemessage")
      as (C & S & I).
    { unfold NUMERIC_FIELDS, SECRETS in *. set_solver. }
    rewrite lookup_insert_ne, safe_config_lookup, decide_False by done.
    rewrite normalize_lookup, decide_True by done.
    do 2 f_equal. unfold Py.get. by rewrite setdefault_lookup, decide_False.
  - rewrite lookup_insert_ne, safe_config_lookup, decide_False
      by (done || unfold SECRETS; set_solver).
    rewrite normalize_lookup, decide_False by (unfold NUMERIC_FIELDS; set_solver).
    by rewrite setdefault_lookup, decide_True.
  - intros k S N C I.
    rewrite lookup_insert_ne, safe_config_lookup, decide_False by done.
    by rewrite normalize_lookup, decide_False, setdefault_lookup, decide_False.
Qed.

End ConfigValidation.

(* ===================================================================== *)
(** ** Instances of the configuration theorems *)
(* ===================================================================== *)

Section ConfigInstances.

Lemma validate_config_sound_witness :
  let int_of_str := fun _ : string => @None Z in
  let repr := fun _ : json => "" in
  let str_lower := fun s : string => s in
  let d0 : gmap string json :=
    <["discord_token" := JStr "tok"]> (<["guild_id" := JInt 1]>
    (<["role_id" := JInt 2]> (<["lnbits_url" := JStr "http://lnbits.local"]>
    (<["lnbits_api_key" := JStr "key"]> (<["price" := JInt 100]>
    (<["channelid" := JInt 3]> {[ "command_name" := JStr "support" ]})))))) in
  exists d,
    JObj d0 = JObj d
    /\ (forall f, In f REQUIRED_FIELDS -> Py.truthy (Py.get d f) = true)
    /\ command_name_re (str_lower (str_ repr (Py.get d "command_name"))) = true
    /\ (forall f, In f ID_FIELDS -> exists z, int_ int_of_str (Py.get d f) = IntOk z /\ 0 < z)
    /\ (exists p, int_ int_of_str (Py.get d "price") = IntOk p /\ 0 < p <= MAX_PRICE)
    /\ (exists n, len_ (Py.get_default d "invoicemessage" (JStr "")) = Some n
                  /\ (n <= 1000)%nat)
    /\ (exists u, d !! "lnbits_url" = Some (JStr u)
                  /\ (Str.startswith "http://" u = true
                      \/ Str.startswith "https://" u = true)).
Proof.
  intros int_of_str repr str_lower d0.
  apply (validate_config_sound int_of_str repr str_lower (JObj d0)).
  vm_compute. reflexivity.
Defined.

Lemma validate_config_first_missing_witness :
  let int_of_str := fun _ : string => @None Z in
  let repr := fun _ : json => "" in
  let str_lower := fun s : string => s in
  let d1 : gmap string json :=
    <["discord_token" := JStr "tok"]> (<["guild_id" := JInt 1]>
    (<["lnbits_url" := JStr "ftp://lnbits.local"]> {[ "price" := JInt 0 ]})) in
  exists g pre post,
    REQUIRED_FIELDS = pre ++ g :: post
    /\ (forall f, In f pre -> Py.truthy (Py.get d1 f) = true)
    /\ Py.truthy (Py.get d1 g) = false
    /\ validate_config int_of_str repr str_lower (JObj d1)
       = Invalid ("Missing required field: " +:+ g).
Proof.
  intros int_of_str repr str_lower d1.
  apply (validate_config_first_missing int_of_str repr str_lower d1).
  exists "price". split; [simpl; tauto | reflexivity].
Defined.

Lemma save_then_get_witness :
  let int_of_str := fun _ : string => @None Z in
  let repr := fun _ : json => "" in
  let str_lower := fun s : string => s in
  let d0 : gmap string json :=
    <["discord_token" := JStr "tok"]> (<["guild_id" := JInt 1]>
    (<["role_id" := JInt 2]> (<["lnbits_url" := JStr "http://lnbits.local"]>
    (<["lnbits_api_key" := JStr "key"]> (<["price" := JInt 100]>
    (<["channelid" := JInt 3]> {[ "command_name" := JStr "support" ]})))))) in
  let res := save_config int_of_str repr str_lower (Some (JObj d0)) Written None in
  res.1 = Saved
  /\ exists resp,
       get_config res.2 = Some resp
       /\ resp !! "configured" = Some (JBool true)
       /\ resp !! "discord_token" = None
       /\ resp !! "lnbits_api_key" = None
       /\ (forall f, In f NUMERIC_FIELDS ->
            resp !! f = Some (JStr (str_ repr (Py.get d0 f))))
       /\ resp !! "invoicemessage"
          = Some (default (JStr DEFAULT_INVOICE_MESSAGE) (d0 !! "invoicemessage"))
       /\ (forall k, k ∉ SECRETS -> k ∉ NUMERIC_FIELDS -> k <> "configured" ->
                     k <> "invoicemessage" -> resp !! k = d0 !! k).
Proof.
  intros int_of_str repr str_lower d0.
  apply (save_then_get int_of_str repr str_lower d0 None).
  vm_compute. reflexivity.
Defined.

End ConfigInstances.

(* ===================================================================== *)
(** ** The address test of the server and the address use of the bot *)
(* ===================================================================== *)

Section AddressAgreement.

#[local] Arguments String.append : simpl nomatch.

Lemma rstrip_is_prefix (ch : ascii) (s : string) :
  exists t, s = Str.rstrip ch s +:+ t.
Proof.
  induction s as [| a s [t IH]]; simpl; [by exists "" |].
  destruct (String.eqb (Str.rstrip ch s) "" && Ascii.eqb a ch).
  - by exists (String a s).
  - exists t. simpl. by rewrite <- IH.
Qed.

Lemma prefix_of_prefix (p s t : string) :
  String.prefix p s = true -> String.prefix p (s +:+ t) = true.
Proof.
  revert s. induction p as [| a p IH]; intros s; simpl.
  - intros _. by destruct (s +:+ t).
  - destruct s as [| b s]; [done |]. simpl.
    destruct (ascii_dec a b); [apply IH | done].
Qed.

(** X25: every LNbits address from which the bot derives the address of
    the event feed begins with [http://] or [https://], which is the test
    the server applies before it saves the address. *)
Theorem served_address_passes_validation (url key w : string) :
  websocket_url url key = Some w ->
  Str.startswith "http://" url = true \/ Str.startswith "https://" url = true.
Proof.
  unfold websocket_url, Str.startswith.
  destruct (String.eqb url "" || String.eqb key ""); [done |].
  destruct (rstrip_is_prefix "/" url) as [t E].
  destruct (String.prefix "https://" (Str.rstrip "/" url)) eqn:P1.
  - intros _. right. rewrite E. by apply prefix_of_prefix.
  - destruct (String.prefix "http://" (Str.rstrip "/" url)) eqn:P2; [| done].
    intros _. left. rewrite E. by apply prefix_of_prefix.
Qed.

Lemma served_address_passes_validation_witness :
  Str.startswith "http://" "https://lnbits.local/" = true
  \/ Str.startswith "https://" "https://lnbits.local/" = true.
Proof.
  apply (served_address_passes_validation "https://lnbits.local/" "key"
           "wss://lnbits.local/api/v1/ws/key").
  reflexivity.
Defined.

End AddressAgreement.
